(** * Avari signaling relay (server.js): registry, call control, signaling,
      transcription bridge, disconnect handling and the stale-match reaper.

    The server keeps five module-level [Map]s and reacts to Socket.IO events,
    provider WebSocket events and a timer.  Every handler runs to completion,
    so a handler is a function from the state to a new state and the list of
    emissions it performed, in program order. *)

From stdpp Require Import gmap strings list fin_maps.
From Stdlib Require Import ZArith Ascii.

Open Scope string_scope.
Open Scope list_scope.
Open Scope Z_scope.

(** ** Data model *)

(** [socket.id]; a socket object is referred to by its id, which Socket.IO
    makes unique per connection. *)
Abbreviation sid := string (only parsing).

(** Identity of one [new WebSocket(dgUrl, ...)] object: its index in the
    list of provider sockets created so far. *)
Abbreviation wsid := nat (only parsing).

(** A JavaScript value used in a condition: [undefined] (a missing field)
    and the empty string are falsy. *)
Definition truthy (v : option string) : option string :=
  match v with
  | Some x => if decide (x = "") then None else Some x
  | None => None
  end.

(** A JavaScript [Set] of socket objects: insertion ordered, no duplicates. *)
Module JsSet.

Definition has (x : sid) (l : list sid) : bool := bool_decide (x ∈ l).

Definition add (x : sid) (l : list sid) : list sid :=
  if has x l then l else l ++ [x].

Definition delete (x : sid) (l : list sid) : list sid :=
  filter (λ y, y ≠ x) l.

Definition size (l : list sid) : nat := length l.

End JsSet.

(** The fields of a socket object the server reads or writes. [rooms] is the
    Socket.IO room membership ([socket.join], left as a whole on close). *)
Record socket := Socket {
  userId : option string;
  matchId : option string;
  connected : bool;
  rooms : gset string
}.

(** [matchMetadata] values. Timestamps are milliseconds since the epoch:
    [new Date().toISOString()] and [new Date(iso).getTime()] are inverse to
    each other at that precision. *)
Record metadata := Metadata {
  createdAt : Z;
  lastActivity : Z
}.

Inductive ready_state := CONNECTING | OPEN | CLOSING | CLOSED.

(** A provider WebSocket ([dgWs]) together with the socket its handlers close
    over, the language of its URL and the audio frames sent on it. *)
Record dgWs := DgWs {
  owner : sid;
  language : string;
  readyState : ready_state;
  sent : list (list Byte.byte)
}.

Record state := State {
  sockets : gmap sid socket;
  matches : gmap string (list sid);
  userSockets : gmap string sid;
  socketToUser : gmap sid string;
  matchMetadata : gmap string metadata;
  deepgramConnections : gmap sid wsid;
  dgSockets : list dgWs
}.

Definition init : state :=
  State ∅ ∅ ∅ ∅ ∅ ∅ [].

(** Server-to-client events. *)
Inductive message :=
  | error (type msg : string)
  | joined (m u : string) (participants : list (option string))
           (participantCount : nat)
  | user_joined (u : string) (participantCount : nat)
  | user_left (u : string)
  | incoming_call (from : option string)
  | call_accepted (from : option string)
  | call_rejected (from : option string) (reason : string)
  | call_ended (from : option string)
  | offer_to (payload : string) (from : option string)
  | answer_to (payload : string) (from : option string)
  | ice_candidate_to (payload : string) (from : option string)
  | transcription_ready
  | transcription_result (text : string) (isFinal : bool) (timestamp : Z)
  | transcription_closed (code : Z) (reason : string)
  | transcription_error (msg : string).

(** What a handler sends: [x.emit(...)] on one socket object, or
    [socket.to(room).emit(...)], which reaches every socket in the room
    except the sender. *)
Inductive emission :=
  | Emit (target : sid) (msg : message)
  | Broadcast (sender : sid) (room : string) (msg : message).

Definition in_room (σ : state) (t : sid) (room : string) : bool :=
  match sockets σ !! t with
  | Some sk => bool_decide (room ∈ rooms sk)
  | None => false
  end.

Definition receives (σ : state) (t : sid) (e : emission) : option message :=
  match e with
  | Emit target msg => if decide (target = t) then Some msg else None
  | Broadcast sender room msg =>
      if decide (sender = t) then None
      else if in_room σ t room then Some msg else None
  end.

(** The messages socket [t] gets from a handler's emissions, in order. *)
Definition inbox (σ : state) (t : sid) (out : list emission) : list message :=
  omap (receives σ t) out.

(** ** State updates *)

Definition set_sockets (f : gmap sid socket → gmap sid socket) (σ : state) :=
  State (f (sockets σ)) (matches σ) (userSockets σ) (socketToUser σ)
        (matchMetadata σ) (deepgramConnections σ) (dgSockets σ).
Definition set_matches (f : gmap string (list sid) → gmap string (list sid))
    (σ : state) :=
  State (sockets σ) (f (matches σ)) (userSockets σ) (socketToUser σ)
        (matchMetadata σ) (deepgramConnections σ) (dgSockets σ).
Definition set_userSockets (f : gmap string sid → gmap string sid)
    (σ : state) :=
  State (sockets σ) (matches σ) (f (userSockets σ)) (socketToUser σ)
        (matchMetadata σ) (deepgramConnections σ) (dgSockets σ).
Definition set_socketToUser (f : gmap sid string → gmap sid string)
    (σ : state) :=
  State (sockets σ) (matches σ) (userSockets σ) (f (socketToUser σ))
        (matchMetadata σ) (deepgramConnections σ) (dgSockets σ).
Definition set_matchMetadata (f : gmap string metadata → gmap string metadata)
    (σ : state) :=
  State (sockets σ) (matches σ) (userSockets σ) (socketToUser σ)
        (f (matchMetadata σ)) (deepgramConnections σ) (dgSockets σ).
Definition set_deepgramConnections (f : gmap sid wsid → gmap sid wsid)
    (σ : state) :=
  State (sockets σ) (matches σ) (userSockets σ) (socketToUser σ)
        (matchMetadata σ) (f (deepgramConnections σ)) (dgSockets σ).
Definition set_dgSockets (f : list dgWs → list dgWs) (σ : state) :=
  State (sockets σ) (matches σ) (userSockets σ) (socketToUser σ)
        (matchMetadata σ) (deepgramConnections σ) (f (dgSockets σ)).

Definition set_labels (u m : string) (sk : socket) : socket :=
  Socket (Some u) (Some m) (connected sk) (rooms sk).
Definition join (room : string) (sk : socket) : socket :=
  Socket (userId sk) (matchId sk) (connected sk) ({[room]} ∪ rooms sk).
Definition closed_socket (sk : socket) : socket :=
  Socket (userId sk) (matchId sk) false ∅.
Definition touch (now : Z) (md : metadata) : metadata :=
  Metadata (createdAt md) now.

Definition socket_userId (σ : state) (s : sid) : option string :=
  sockets σ !! s ≫= userId.
Definition socket_matchId (σ : state) (s : sid) : option string :=
  sockets σ !! s ≫= matchId.
Definition is_connected (σ : state) (s : sid) : bool :=
  match sockets σ !! s with
  | Some sk => connected sk
  | None => false
  end.

(** [const targetSocket = userSockets.get(to)] followed by the test
    [targetSocket && targetSocket.connected]. *)
Definition live_target (σ : state) (to : option string) : option sid :=
  match to ≫= (λ u, userSockets σ !! u) with
  | Some t => if is_connected σ t then Some t else None
  | None => None
  end.

(** [Array.from(match).map(s => s.userId)]. *)
Definition participants (σ : state) (mt : list sid) : list (option string) :=
  (λ t, socket_userId σ t) <$> mt.

(** ** Registration *)

(** The handler reads the clock up to three times in one run: twice when it
    creates the metadata of a new match and once more for the
    [lastActivity] it stores at the end, which overwrites the second
    reading.  [now] is that last reading; a run of the handler is one
    event, so the two readings at creation are recorded as [now] as well.
    The properties below are about [lastActivity]; none relies on
    [createdAt] being equal to it. *)
Definition register (now : Z) (s : sid) (uid mid : option string) (σ : state)
    : state * list emission :=
  match truthy uid, truthy mid with
  | Some u, Some m =>
      let σ1 := set_sockets (alter (set_labels u m) s) σ in
      let σ2 := set_socketToUser <[s:=u]> (set_userSockets <[u:=s]> σ1) in
      let σ3 :=
        match matches σ2 !! m with
        | Some _ => σ2
        | None =>
            set_matchMetadata <[m:=Metadata now now]>
              (set_matches <[m:=[]]> σ2)
        end in
      let mt := default [] (matches σ3 !! m) in
      if (2 <=? JsSet.size mt)%nat && negb (JsSet.has s mt) then
        (σ3, [Emit s (error "match_full"
                            "This match already has 2 participants")])
      else
        let mt' := JsSet.add s mt in
        let σ4 := set_sockets (alter (join m) s)
                    (set_matches <[m:=mt']> σ3) in
        match matchMetadata σ4 !! m with
        | None =>
            (* [matchMetadata.get(matchId)] is undefined: the assignment
               throws and the catch block answers *)
            (σ4, [Emit s (error "server_error" "Failed to register")])
        | Some md =>
            let σ5 := set_matchMetadata <[m:=touch now md]> σ4 in
            (σ5, [Emit s (joined m u (participants σ5 mt') (JsSet.size mt'));
                  Broadcast s m (user_joined u (JsSet.size mt'))])
        end
  | _, _ =>
      (σ, [Emit s (error "validation" "Missing userId or matchId")])
  end.

(** ** Call control *)

Definition initiate_call (now : Z) (s : sid) (to : option string) (σ : state)
    : state * list emission :=
  match live_target σ to with
  | None =>
      (σ, [Emit s (error "user_offline" "Target user is not connected")])
  | Some t =>
      let out := [Emit t (incoming_call (socket_userId σ s))] in
      match truthy (socket_matchId σ s) with
      | Some m =>
          match matchMetadata σ !! m with
          | Some md => (set_matchMetadata <[m:=touch now md]> σ, out)
          | None => (σ, out)
          end
      | None => (σ, out)
      end
  end.

Definition accept_call (s : sid) (to : option string) (σ : state)
    : state * list emission :=
  match live_target σ to with
  | Some t => (σ, [Emit t (call_accepted (socket_userId σ s))])
  | None => (σ, [])
  end.

Definition reject_call (s : sid) (to reason : option string) (σ : state)
    : state * list emission :=
  match live_target σ to with
  | Some t =>
      (σ, [Emit t (call_rejected (socket_userId σ s)
                     (default "User declined" (truthy reason)))])
  | None => (σ, [])
  end.

Definition end_call (s : sid) (to : option string) (σ : state)
    : state * list emission :=
  let direct :=
    match truthy to with
    | Some u =>
        match live_target σ (Some u) with
        | Some t => [Emit t (call_ended (socket_userId σ s))]
        | None => []
        end
    | None => []
    end in
  let room :=
    match truthy (socket_matchId σ s) with
    | Some m => [Broadcast s m (call_ended (socket_userId σ s))]
    | None => []
    end in
  (σ, direct ++ room).

(** ** WebRTC signaling *)

Definition offer (s : sid) (payload : string) (to : option string)
    (σ : state) : state * list emission :=
  match live_target σ to with
  | Some t => (σ, [Emit t (offer_to payload (socket_userId σ s))])
  | None => (σ, [Emit s (error "user_offline" "Target user not found")])
  end.

Definition answer (s : sid) (payload : string) (to : option string)
    (σ : state) : state * list emission :=
  match live_target σ to with
  | Some t => (σ, [Emit t (answer_to payload (socket_userId σ s))])
  | None => (σ, [])
  end.

Definition ice_candidate (s : sid) (payload : string) (to : option string)
    (σ : state) : state * list emission :=
  match live_target σ to with
  | Some t => (σ, [Emit t (ice_candidate_to payload (socket_userId σ s))])
  | None => (σ, [])
  end.

(** ** Transcription bridge *)

(** [dgWs.close()]: a socket that is not closed yet starts closing; its
    'close' event arrives later, as an event of its own. *)
Definition ws_close (w : dgWs) : dgWs :=
  match readyState w with
  | CLOSED => w
  | _ => DgWs (owner w) (language w) CLOSING (sent w)
  end.

Definition ws_set_ready (r : ready_state) (w : dgWs) : dgWs :=
  DgWs (owner w) (language w) r (sent w).

Definition ws_send (data : list Byte.byte) (w : dgWs) : dgWs :=
  DgWs (owner w) (language w) (readyState w) (sent w ++ [data]).

(** The three places that do
    [if (dgWs) { dgWs.close(); deepgramConnections.delete(socket.id) }]. *)
Definition close_existing (s : sid) (σ : state) : state :=
  match deepgramConnections σ !! s with
  | Some w =>
      set_deepgramConnections (delete s) (set_dgSockets (alter ws_close w) σ)
  | None => σ
  end.

(** [new WebSocket(dgUrl, { headers })] can throw, and the handler's [catch]
    then answers with 'Failed to start transcription'. Scheme, host and path
    of [dgUrl] are fixed and the language is spliced into its query, so the
    URL always parses; the constructor refuses it when it has a fragment
    identifier, which is when the language contains '#' (the rest of the
    query follows it, so the fragment is never empty). The HTTP request the
    constructor builds refuses a header value with a character outside tab,
    0x20-0x7e and 0x80-0xff; the value is [Token ${apiKey}]. *)
Definition has_fragment (lang : string) : bool :=
  existsb (Ascii.eqb "#"%char) (String.list_ascii_of_string lang).

Definition header_char_ok (c : ascii) : bool :=
  let n := Ascii.nat_of_ascii c in
  Nat.eqb n 9 || (Nat.leb 32 n && negb (Nat.eqb n 127)).

Definition websocket_throws (key lang : string) : bool :=
  has_fragment lang || negb (forallb header_char_ok (String.list_ascii_of_string key)).

Definition transcription_start (apiKey : option string) (s : sid)
    (lang : option string) (σ : state) : state * list emission :=
  match truthy apiKey with
  | None =>
      (σ, [Emit s (transcription_error
                     "DEEPGRAM_API_KEY not configured on server")])
  | Some key =>
      let σ1 := close_existing s σ in
      let lang := default "en-US" (truthy lang) in
      if websocket_throws key lang then
        (σ1, [Emit s (transcription_error "Failed to start transcription")])
      else
        let w := length (dgSockets σ1) in
        let ws := DgWs s lang CONNECTING [] in
        (set_deepgramConnections <[s:=w]>
           (set_dgSockets (λ l, l ++ [ws]) σ1), [])
  end.

Definition audio_chunk (s : sid) (data : list Byte.byte) (σ : state)
    : state * list emission :=
  match deepgramConnections σ !! s with
  | Some w =>
      match dgSockets σ !! w with
      | Some ws =>
          match readyState ws with
          | OPEN => (set_dgSockets (alter (ws_send data) w) σ, [])
          | _ => (σ, [])
          end
      | None => (σ, [])
      end
  | None => (σ, [])
  end.

Definition transcription_stop (s : sid) (σ : state) : state * list emission :=
  (close_existing s σ, []).

(** Handlers installed on the provider socket [w]; [socket] in their bodies
    is the socket that started the session, [owner]. The change of
    [readyState] that comes with each event is the [ws] library's. *)
Definition dg_open (w : wsid) (σ : state) : state * list emission :=
  match dgSockets σ !! w with
  | Some ws =>
      (set_dgSockets (alter (ws_set_ready OPEN) w) σ,
       [Emit (owner ws) transcription_ready])
  | None => (σ, [])
  end.

Definition dg_message (now : Z) (w : wsid) (transcript : option string)
    (is_final : bool) (σ : state) : state * list emission :=
  match dgSockets σ !! w with
  | Some ws =>
      match truthy transcript with
      | Some text =>
          (σ, [Emit (owner ws) (transcription_result text is_final now)])
      | None => (σ, [])
      end
  | None => (σ, [])
  end.

Definition dg_close (w : wsid) (code : Z) (reason : string) (σ : state)
    : state * list emission :=
  match dgSockets σ !! w with
  | Some ws =>
      (set_deepgramConnections (delete (owner ws))
         (set_dgSockets (alter (ws_set_ready CLOSED) w) σ),
       [Emit (owner ws) (transcription_closed code reason)])
  | None => (σ, [])
  end.

Definition dg_error (w : wsid) (msg : string) (σ : state)
    : state * list emission :=
  match dgSockets σ !! w with
  | Some ws =>
      (set_dgSockets (alter (ws_set_ready CLOSING) w) σ,
       [Emit (owner ws) (transcription_error msg)])
  | None => (σ, [])
  end.

(** ** Connection and disconnection *)

(** [io.on('connection')]: a new socket object, in the room of its own id. *)
Definition connection (s : sid) (σ : state) : state * list emission :=
  (set_sockets <[s:=Socket None None true {[s]}]> σ, []).

Definition leave_match (s : sid) (u : string) (σ : state)
    : state * list emission :=
  match truthy (socket_matchId σ s) with
  | Some m =>
      match matches σ !! m with
      | Some mt =>
          let mt' := JsSet.delete s mt in
          let σ1 := set_matches <[m:=mt']> σ in
          let out := [Broadcast s m (user_left u);
                      Broadcast s m (call_ended (Some u))] in
          if (JsSet.size mt' =? 0)%nat then
            (set_matchMetadata (delete m) (set_matches (delete m) σ1), out)
          else (σ1, out)
      | None => (σ, [])
      end
  | None => (σ, [])
  end.

(** The 'disconnect' handler. Socket.IO has left all rooms and cleared
    [socket.connected] before the handler runs. *)
Definition disconnect (s : sid) (σ : state) : state * list emission :=
  let σ0 := set_sockets (alter closed_socket s) σ in
  let σ1 := close_existing s σ0 in
  match truthy (socket_userId σ1 s) with
  | Some u =>
      leave_match s u
        (set_socketToUser (delete s) (set_userSockets (delete u) σ1))
  | None => (σ1, [])
  end.

(** ** Periodic cleanup *)

Definition STALE_TIMEOUT : Z := 30 * 60 * 1000.

(** One turn of the loop over [matchMetadata.entries()]. *)
Definition reap_entry (now : Z) (σ : state) (entry : string * metadata)
    : state :=
  let '(m, md) := entry in
  if STALE_TIMEOUT <? now - lastActivity md then
    match matches σ !! m with
    | Some mt =>
        if (JsSet.size mt =? 0)%nat then
          set_matchMetadata (delete m) (set_matches (delete m) σ)
        else σ
    | None => σ
    end
  else σ.

(** The [setInterval] callback. The loop visits every entry the map had when
    it started: an iteration deletes at most the entry it is visiting. *)
Definition reaper (now : Z) (σ : state) : state :=
  foldl (reap_entry now) σ (map_to_list (matchMetadata σ)).

(** ** The server as a transition system *)

Inductive event :=
  | Connection (s : sid)
  | Register (s : sid) (uid mid : option string)
  | InitiateCall (s : sid) (to : option string)
  | AcceptCall (s : sid) (to : option string)
  | RejectCall (s : sid) (to reason : option string)
  | EndCall (s : sid) (to : option string)
  | Offer (s : sid) (payload : string) (to : option string)
  | Answer (s : sid) (payload : string) (to : option string)
  | IceCandidate (s : sid) (payload : string) (to : option string)
  | TranscriptionStart (s : sid) (lang : option string)
  | AudioChunk (s : sid) (data : list Byte.byte)
  | TranscriptionStop (s : sid)
  | Disconnect (s : sid)
  | DgOpen (w : wsid)
  | DgMessage (w : wsid) (transcript : option string) (is_final : bool)
  | DgClose (w : wsid) (code : Z) (reason : string)
  | DgError (w : wsid) (msg : string)
  | Reaper.

(** [apiKey] is [process.env.DEEPGRAM_API_KEY]; [now] is the clock reading
    of the handler. *)
Definition step (apiKey : option string) (now : Z) (e : event) (σ : state)
    : state * list emission :=
  match e with
  | Connection s => connection s σ
  | Register s uid mid => register now s uid mid σ
  | InitiateCall s to => initiate_call now s to σ
  | AcceptCall s to => accept_call s to σ
  | RejectCall s to reason => reject_call s to reason σ
  | EndCall s to => end_call s to σ
  | Offer s payload to => offer s payload to σ
  | Answer s payload to => answer s payload to σ
  | IceCandidate s payload to => ice_candidate s payload to σ
  | TranscriptionStart s lang => transcription_start apiKey s lang σ
  | AudioChunk s data => audio_chunk s data σ
  | TranscriptionStop s => transcription_stop s σ
  | Disconnect s => disconnect s σ
  | DgOpen w => dg_open w σ
  | DgMessage w transcript is_final => dg_message now w transcript is_final σ
  | DgClose w code reason => dg_close w code reason σ
  | DgError w msg => dg_error w msg σ
  | Reaper => (reaper now σ, [])
  end.

Definition ws_ready (σ : state) (w : wsid) : option ready_state :=
  readyState <$> dgSockets σ !! w.

(** When an event can occur: a socket id connects once, client events come
    from connected sockets, and a provider socket opens once, delivers
    messages while open and closes once. *)
Definition enabled (σ : state) (e : event) : bool :=
  match e with
  | Connection s => bool_decide (sockets σ !! s = None)
  | Register s _ _ | InitiateCall s _ | AcceptCall s _ | RejectCall s _ _
  | EndCall s _ | Offer s _ _ | Answer s _ _ | IceCandidate s _ _
  | TranscriptionStart s _ | AudioChunk s _ | TranscriptionStop s
  | Disconnect s => is_connected σ s
  | DgOpen w =>
      match ws_ready σ w with Some CONNECTING => true | _ => false end
  | DgMessage w _ _ =>
      match ws_ready σ w with Some OPEN | Some CLOSING => true | _ => false end
  | DgClose w _ _ | DgError w _ =>
      match ws_ready σ w with Some CLOSED | None => false | _ => true end
  | Reaper => true
  end.

(** Running a list of timed events from a state. *)
Fixpoint run (apiKey : option string) (tr : list (Z * event)) (σ : state)
    : state :=
  match tr with
  | [] => σ
  | (now, e) :: tr' => run apiKey tr' (fst (step apiKey now e σ))
  end.

Fixpoint admissible (apiKey : option string) (tr : list (Z * event))
    (σ : state) : bool :=
  match tr with
  | [] => true
  | (now, e) :: tr' =>
      enabled σ e && admissible apiKey tr' (fst (step apiKey now e σ))
  end.

Inductive reachable (apiKey : option string) : state → Prop :=
  | reachable_init : reachable apiKey init
  | reachable_step σ now e :
      reachable apiKey σ → enabled σ e = true →
      reachable apiKey (fst (step apiKey now e σ)).

(** Sessions of socket [s] that are connecting or open: provider sockets
    whose handlers close over [s] and on which neither [close()] nor a
    'close' event has happened. *)
Definition active (ws : dgWs) : bool :=
  match readyState ws with
  | CONNECTING | OPEN => true
  | _ => false
  end.

Definition active_sessions (σ : state) (s : sid) : list dgWs :=
  filter (λ ws, owner ws = s ∧ active ws = true) (dgSockets σ).

(** The reaper's test for one match, read off the two maps. *)
Definition stale_empty (now : Z) (σ : state) (m : string) : Prop :=
  matches σ !! m = Some [] ∧
  ∃ md, matchMetadata σ !! m = Some md ∧
        STALE_TIMEOUT < now - lastActivity md.

(** States used in examples: A and B are both registered in match m1. *)
Definition two_in_match : state :=
  run (Some "key")
    [(1, Connection "A"); (2, Connection "B");
     (3, Register "A" (Some "u1") (Some "m1"));
     (4, Register "B" (Some "u2") (Some "m1"))] init.

Definition three_sockets_trace : list (Z * event) :=
  [(1, Connection "A"); (2, Connection "B");
   (3, Register "A" (Some "u1") (Some "m1"));
   (4, Register "B" (Some "u2") (Some "m1"));
   (5, Connection "C")].

Definition three_sockets : state :=
  run (Some "key") three_sockets_trace init.


(** A session is started for A and the provider socket opens. *)
Definition provider_error_trace : list (Z * event) :=
  [(1, Connection "A"); (2, TranscriptionStart "A" None);
   (3, DgOpen 0%nat)].

(** The first four assignments of [register]: the labels on the socket
    object and the two index entries. *)
Definition labelled (s : sid) (u m : string) (σ : state) : state :=
  set_socketToUser <[s:=u]>
    (set_userSockets <[u:=s]> (set_sockets (alter (set_labels u m) s) σ)).

(** The state a successful [register] leaves, given the member set [mt]
    and the metadata [md] of the match as they are after the match was
    initialised. *)
Definition registered (now : Z) (s : sid) (u m : string) (mt : list sid)
    (md : metadata) (σ : state) : state :=
  State (alter (join m) s (alter (set_labels u m) s (sockets σ)))
        (<[m:=JsSet.add s mt]> (matches σ))
        (<[u:=s]> (userSockets σ))
        (<[s:=u]> (socketToUser σ))
        (<[m:=touch now md]> (matchMetadata σ))
        (deepgramConnections σ) (dgSockets σ).

(** The negation of [register]'s capacity test. *)
Definition not_full (s : sid) (mt : list sid) : Prop :=
  (length mt < 2)%nat ∨ s ∈ mt.

(** The test of one loop turn of the reaper, on the metadata [md] of the
    entry and the match-table value [o] under the same key. *)
Definition purge (now : Z) (o : option (list sid)) (md : metadata) : bool :=
  (STALE_TIMEOUT <? now - lastActivity md) &&
  match o with
  | Some mt => (JsSet.size mt =? 0)%nat
  | None => false
  end.

(** A state with an empty stale match, an empty recent match and a stale
    match that still has a member, for exercising the reaper. *)
Definition reaper_example : state :=
  State {["A" := Socket (Some "u1") (Some "old") true {["A"; "old"]}]}
        {["gone" := []; "fresh" := []; "old" := ["A"]]}
        {["u1" := "A"]} {["A" := "u1"]}
        {["gone" := Metadata 0 0; "fresh" := Metadata 0 1500000;
          "old" := Metadata 0 0]}
        ∅ [].

(** ** Well-formed registries *)

(** A member set is well formed when it holds at most two distinct sockets
    and at least one, its match has a non-empty name and metadata, and each
    member is a known socket that, while connected, is in the Socket.IO
    room of the match. *)
Definition match_wf (σ : state) (m : string) (mt : list sid) : Prop :=
  NoDup mt ∧ (length mt ≤ 2)%nat ∧ mt ≠ [] ∧ m ≠ "" ∧
  is_Some (matchMetadata σ !! m) ∧
  ∀ t, t ∈ mt →
    ∃ sk, sockets σ !! t = Some sk ∧ (connected sk = true → m ∈ rooms sk).

Record wf (σ : state) : Prop := Wf {
  wf_matches : ∀ m mt, matches σ !! m = Some mt → match_wf σ m mt;
  wf_metadata : ∀ m, is_Some (matchMetadata σ !! m) → is_Some (matches σ !! m);
  wf_labels : ∀ s sk, sockets σ !! s = Some sk →
              userId sk ≠ Some "" ∧ matchId sk ≠ Some ""
}.

(** Every socket of [σ] is still known in [σ'] and, if still connected
    there, has kept its rooms. *)
Definition sockets_grow (σ σ' : state) : Prop :=
  ∀ t sk, sockets σ !! t = Some sk →
    ∃ sk', sockets σ' !! t = Some sk' ∧
           (connected sk' = true → connected sk = true ∧ rooms sk ⊆ rooms sk').

(** A starts transcription and restarts it while the first session is
    open; the provider socket of the first session then completes its
    closure, and A starts transcription once more. *)
Definition restart_trace : list (Z * event) :=
  [(1, Connection "A");
   (2, TranscriptionStart "A" None);
   (3, DgOpen 0%nat);
   (4, TranscriptionStart "A" None);
   (5, DgOpen 1%nat);
   (6, DgClose 0%nat 1000 "");
   (7, TranscriptionStart "A" None)].

(** ** Further invariants of the registry and of the bridge *)

(** A socket is in a room only if the room is the one of its own id or
    names a match it is a member of. *)
Definition rooms_ok (σ : state) : Prop :=
  ∀ t sk room, sockets σ !! t = Some sk → room ∈ rooms sk →
    room = t ∨ ∃ mt, matches σ !! room = Some mt ∧ t ∈ mt.

(** Every member of a match is a socket object that carries a userId. *)
Definition members_labelled (σ : state) : Prop :=
  ∀ m mt t, matches σ !! m = Some mt → t ∈ mt →
    ∃ sk u, sockets σ !! t = Some sk ∧ userId sk = Some u.

(** [socketToUser] is the map from the connected sockets that carry a userId
    to that userId, and [userSockets] only holds non-empty userIds and
    socket objects that were labelled by [register]. *)
Definition index_ok (σ : state) : Prop :=
  (∀ s u, socketToUser σ !! s = Some u ↔
          ∃ sk, sockets σ !! s = Some sk ∧ connected sk = true ∧
                userId sk = Some u) ∧
  (∀ u t, userSockets σ !! u = Some t →
          u ≠ "" ∧ ∃ sk, sockets σ !! t = Some sk ∧ is_Some (userId sk)).

(** A session recorded for a socket is a provider socket created for that
    socket, not yet closed, and the socket is connected. *)
Definition sessions_ok (σ : state) : Prop :=
  ∀ s w, deepgramConnections σ !! s = Some w →
    ∃ ws, dgSockets σ !! w = Some ws ∧ owner ws = s ∧
          readyState ws ≠ CLOSED ∧ is_connected σ s = true.

Definition registry_ok (σ : state) : Prop :=
  rooms_ok σ ∧ members_labelled σ ∧ index_ok σ.

(** ** HTTP endpoints and the startup banner *)

(** The environment variables the server reads from [process.env]. *)
Record env := Env {
  DEEPGRAM_API_KEY : option string;
  METERED_USERNAME : option string;
  METERED_CREDENTIAL : option string;
  TURN_SERVER_URL : option string;
  TURN_USERNAME : option string;
  TURN_CREDENTIAL : option string
}.

Record ice_server := IceServer {
  urls : string;
  username : option string;
  credential : option string
}.

Definition stun_servers : list ice_server :=
  [IceServer "stun:stun.l.google.com:19302" None None;
   IceServer "stun:stun1.l.google.com:19302" None None;
   IceServer "stun:stun2.l.google.com:19302" None None].

Definition metered_servers (u c : string) : list ice_server :=
  [IceServer "turn:a.relay.metered.ca:80" (Some u) (Some c);
   IceServer "turn:a.relay.metered.ca:80?transport=tcp" (Some u) (Some c);
   IceServer "turn:a.relay.metered.ca:443" (Some u) (Some c);
   IceServer "turn:a.relay.metered.ca:443?transport=tcp" (Some u) (Some c)].

(** The body of [GET /api/ice-servers]. *)
Definition ice_servers (e : env) : list ice_server :=
  stun_servers ++
  match truthy (METERED_USERNAME e), truthy (METERED_CREDENTIAL e) with
  | Some u, Some c => metered_servers u c
  | _, _ =>
      match truthy (TURN_SERVER_URL e) with
      | Some url =>
          [IceServer url (Some (default "" (truthy (TURN_USERNAME e))))
                         (Some (default "" (truthy (TURN_CREDENTIAL e))))]
      | None => []
      end
  end.

(** The "TURN Server" line of the startup banner:
    [METERED_USERNAME || TURN_SERVER_URL ? '✓' : '✗']. *)
Definition turn_banner (e : env) : bool :=
  match truthy (METERED_USERNAME e), truthy (TURN_SERVER_URL e) with
  | None, None => false
  | _, _ => true
  end.

(** One element of [matches] in the body of [GET /api/stats]. *)
Record participant_detail := ParticipantDetail {
  detail_userId : option string;
  detail_connected : bool
}.

Record match_detail := MatchDetail {
  detail_matchId : string;
  participantCount : nat;
  detail_participants : list participant_detail;
  detail_createdAt : option Z;
  detail_lastActivity : option Z
}.

Definition match_details (σ : state) (entry : string * list sid)
    : match_detail :=
  let '(m, mt) := entry in
  MatchDetail m (JsSet.size mt)
    ((λ t, ParticipantDetail (socket_userId σ t) (is_connected σ t)) <$> mt)
    (createdAt <$> matchMetadata σ !! m)
    (lastActivity <$> matchMetadata σ !! m).

Record stats := Stats {
  activeMatches : nat;
  connectedUsers : nat;
  stats_matches : list match_detail
}.

(** [GET /api/stats], without [totalSockets] and [timestamp], which come
    from the transport and the clock. The order of [stats_matches] is the
    iteration order of the match table; nothing below depends on it. *)
Definition api_stats (σ : state) : stats :=
  Stats (size (matches σ)) (size (userSockets σ))
        (match_details σ <$> map_to_list (matches σ)).

(** ** The client's participant list (the useSignaling hook) *)

Module Client.

(** [setParticipants] in the 'user-joined' handler. *)
Definition on_user_joined (joinedUserId : option string)
    (prev : list (option string)) : list (option string) :=
  if bool_decide (joinedUserId ∈ prev) then prev else prev ++ [joinedUserId].

(** [setParticipants] in the 'user-left' handler. *)
Definition on_user_left (leftUserId : option string)
    (prev : list (option string)) : list (option string) :=
  filter (λ id, id ≠ leftUserId) prev.

(** The participant list after one server event; 'joined' replaces it and
    the events that are not about the room leave it alone. *)
Definition handle (msg : message) (prev : list (option string))
    : list (option string) :=
  match msg with
  | joined _ _ roomParticipants _ => roomParticipants
  | user_joined u _ => on_user_joined (Some u) prev
  | user_left u => on_user_left (Some u) prev
  | _ => prev
  end.

End Client.

(** * Properties *)

(** ** Bookkeeping for states *)

(** Projections of updated states. *)
Ltac st :=
  unfold labelled in *; unfold match_wf, sockets_grow;
  cbn [sockets matches userSockets socketToUser matchMetadata
       deepgramConnections dgSockets fst snd default from_option id
       set_sockets set_matches set_userSockets set_socketToUser
       set_matchMetadata set_deepgramConnections set_dgSockets] in *.

Lemma state_ext σ σ' :
  sockets σ = sockets σ' → matches σ = matches σ' →
  userSockets σ = userSockets σ' → socketToUser σ = socketToUser σ' →
  matchMetadata σ = matchMetadata σ' →
  deepgramConnections σ = deepgramConnections σ' →
  dgSockets σ = dgSockets σ' → σ = σ'.
Proof. destruct σ, σ'. cbn. by intros -> -> -> -> -> -> ->. Qed.

Ltac state_eq :=
  match goal with
  | |- (?a, _) = (?b, _) =>
      let H := fresh in
      assert (a = b) as H; [apply state_ext; st|rewrite H; clear H]
  end.

(** ** Truthiness *)

Lemma truthy_Some v x : truthy v = Some x → v = Some x ∧ x ≠ "".
Proof.
  destruct v as [y|]; simpl; [|discriminate].
  destruct (decide (y = "")); [discriminate|].
  intros [= ->]. done.
Qed.

Lemma truthy_of_Some x : x ≠ "" → truthy (Some x) = Some x.
Proof. intros Hx. simpl. destruct (decide (x = "")); done. Qed.

(** ** The set operations *)

Lemma has_true x l : JsSet.has x l = true ↔ x ∈ l.
Proof. unfold JsSet.has. apply bool_decide_eq_true. Qed.

Lemma has_false x l : JsSet.has x l = false ↔ x ∉ l.
Proof. unfold JsSet.has. apply bool_decide_eq_false. Qed.

Lemma add_member x l : x ∈ l → JsSet.add x l = l.
Proof. intros H. unfold JsSet.add. by rewrite (proj2 (has_true x l) H). Qed.

Lemma add_fresh x l : x ∉ l → JsSet.add x l = l ++ [x].
Proof. intros H. unfold JsSet.add. by rewrite (proj2 (has_false x l) H). Qed.

Lemma elem_of_add x y l : y ∈ JsSet.add x l ↔ y = x ∨ y ∈ l.
Proof.
  destruct (decide (x ∈ l)) as [Hin|Hout].
  - rewrite add_member by done.
    split; [by right | by intros [->|?]].
  - rewrite add_fresh by done.
    rewrite elem_of_app, list_elem_of_singleton. tauto.
Qed.

Lemma NoDup_add x l : NoDup l → NoDup (JsSet.add x l).
Proof.
  intros Hl. destruct (decide (x ∈ l)) as [Hin|Hout].
  - by rewrite add_member.
  - rewrite add_fresh by done. apply NoDup_app. repeat split; [done| |].
    + intros y Hy ->%list_elem_of_singleton. done.
    + apply NoDup_singleton.
Qed.

Lemma elem_of_delete x y l : y ∈ JsSet.delete x l ↔ y ≠ x ∧ y ∈ l.
Proof. unfold JsSet.delete. by rewrite list_elem_of_filter. Qed.

Lemma NoDup_delete x l : NoDup l → NoDup (JsSet.delete x l).
Proof. apply NoDup_filter. Qed.

Lemma length_delete x l : (length (JsSet.delete x l) ≤ length l)%nat.
Proof. apply length_filter. Qed.

(** ** Routing to a target that is not connected *)

Lemma live_target_truthy σ to u :
  truthy to = Some u → live_target σ (Some u) = live_target σ to.
Proof. by intros [-> _]%truthy_Some. Qed.

Lemma inbox_nil σ t : inbox σ t [] = [].
Proof. reflexivity. Qed.

Lemma inbox_emit_self σ s msg : inbox σ s [Emit s msg] = [msg].
Proof. unfold inbox. simpl. by rewrite decide_True. Qed.

Lemma inbox_emit_other σ s t msg : t ≠ s → inbox σ t [Emit s msg] = [].
Proof. intros Hts. unfold inbox. simpl. by rewrite decide_False. Qed.

Lemma inbox_broadcast_self σ s room msg :
  inbox σ s [Broadcast s room msg] = [].
Proof. unfold inbox. simpl. by rewrite decide_True. Qed.

(** C2, as amended: when the user index has no connected socket for [to],
    initiate-call and offer answer the sender with exactly one
    [error{type:"user_offline"}], answer and ice-candidate emit nothing at
    all, and in the four cases the state is unchanged and no other
    connection receives anything. *)
Theorem route_to_offline_target now s payload to σ :
  live_target σ to = None →
  initiate_call now s to σ =
    (σ, [Emit s (error "user_offline" "Target user is not connected")]) ∧
  offer s payload to σ =
    (σ, [Emit s (error "user_offline" "Target user not found")]) ∧
  answer s payload to σ = (σ, []) ∧
  ice_candidate s payload to σ = (σ, []) ∧
  ∀ t, t ≠ s →
    inbox σ t (snd (initiate_call now s to σ)) = [] ∧
    inbox σ t (snd (offer s payload to σ)) = [] ∧
    inbox σ t (snd (answer s payload to σ)) = [] ∧
    inbox σ t (snd (ice_candidate s payload to σ)) = [].
Proof.
  intros Hoff.
  unfold initiate_call, offer, answer, ice_candidate. rewrite Hoff.
  do 4 (split; [reflexivity|]).
  intros t Hts. cbn [snd].
  rewrite !inbox_emit_other, inbox_nil by done. done.
Qed.

Lemma route_to_offline_target_witness :
  live_target two_in_match (Some "u9") = None ∧
  inbox two_in_match "A"
    (snd (offer "A" "sdp" (Some "u9") two_in_match)) =
    [error "user_offline" "Target user not found"] ∧
  answer "A" "sdp" (Some "u9") two_in_match = (two_in_match, []).
Proof.
  assert (H : live_target two_in_match (Some "u9") = None) by reflexivity.
  destruct (route_to_offline_target 7 "A" "sdp" (Some "u9") two_in_match H)
    as (_ & Ho & Ha & _).
  split; [exact H|]. split; [|exact Ha].
  rewrite Ho. reflexivity.
Defined.

(** C2 as stated fails for answer: the sender of an answer whose target is
    not connected receives no error event. *)
Lemma answer_offline_sends_no_error :
  let σ := two_in_match in
  enabled σ (Answer "A" "sdp" (Some "u9")) = true ∧
  live_target σ (Some "u9") = None ∧
  snd (step None 7 (Answer "A" "sdp" (Some "u9")) σ) = [] ∧
  ¬ ∃ ty msg,
      inbox σ "A" (snd (step None 7 (Answer "A" "sdp" (Some "u9")) σ)) =
      [error ty msg].
Proof.
  repeat split; intros (ty & msg & H); discriminate H.
Qed.

(** ** Which operations refresh [lastActivity] *)

(** C3, as amended: of the call-control and signaling operations only an
    initiate-call that reaches a connected target refreshes [lastActivity],
    and it does so for the match named by the sender's [matchId] when that
    match has metadata; accept-call, reject-call, end-call, offer, answer,
    ice-candidate and an initiate-call to an offline target leave the whole
    state, metadata included, as it was. *)
Theorem activity_refreshed_by_initiate_only now s to reason payload σ :
  fst (accept_call s to σ) = σ ∧
  fst (reject_call s to reason σ) = σ ∧
  fst (end_call s to σ) = σ ∧
  fst (offer s payload to σ) = σ ∧
  fst (answer s payload to σ) = σ ∧
  fst (ice_candidate s payload to σ) = σ ∧
  (live_target σ to = None → fst (initiate_call now s to σ) = σ) ∧
  (∀ t m md,
     live_target σ to = Some t →
     truthy (socket_matchId σ s) = Some m →
     matchMetadata σ !! m = Some md →
     matchMetadata (fst (initiate_call now s to σ)) =
       <[m:=Metadata (createdAt md) now]> (matchMetadata σ)).
Proof.
  unfold accept_call, reject_call, end_call, offer, answer, ice_candidate,
    initiate_call.
  destruct (live_target σ to) as [t|]; repeat split; try done.
  intros t' m md _ Hm Hmd. rewrite Hm, Hmd. reflexivity.
Qed.

Lemma activity_refreshed_by_initiate_only_witness :
  lastActivity <$>
    matchMetadata
      (fst (initiate_call 5000 "A" (Some "u2") two_in_match)) !! "m1" =
  Some 5000.
Proof.
  destruct (activity_refreshed_by_initiate_only 5000 "A" (Some "u2") None
              "sdp" two_in_match) as (_ & _ & _ & _ & _ & _ & _ & H).
  rewrite (H "B" "m1" (Metadata 3 4)) by reflexivity.
  reflexivity.
Defined.

(** C3 as stated fails for accept-call: B, registered in m1, accepts a call
    at time 5000; A gets the event, and m1's [lastActivity] is still the
    time of B's registration. *)
Lemma accept_call_keeps_lastActivity :
  let r := step (Some "key") 5000 (AcceptCall "B" (Some "u1")) two_in_match in
  enabled two_in_match (AcceptCall "B" (Some "u1")) = true ∧
  socket_matchId two_in_match "B" = Some "m1" ∧
  inbox (fst r) "A" (snd r) = [call_accepted (Some "u2")] ∧
  lastActivity <$> matchMetadata (fst r) !! "m1" = Some 4 ∧
  lastActivity <$> matchMetadata (fst r) !! "m1" ≠ Some 5000.
Proof. repeat split. discriminate. Qed.

(** ** accept-call, reject-call and end-call to an offline target *)

(** C8, as amended: with no connected socket indexed under [to],
    accept-call and reject-call emit nothing and change nothing; end-call
    changes nothing and sends nothing to the sender (so no error event),
    but it still broadcasts call-ended to the room of the sender's match. *)
Theorem call_control_offline_target s to reason σ :
  live_target σ to = None →
  accept_call s to σ = (σ, []) ∧
  reject_call s to reason σ = (σ, []) ∧
  fst (end_call s to σ) = σ ∧
  inbox σ s (snd (end_call s to σ)) = [] ∧
  snd (end_call s to σ) =
    match truthy (socket_matchId σ s) with
    | Some m => [Broadcast s m (call_ended (socket_userId σ s))]
    | None => []
    end.
Proof.
  intros Hoff. unfold accept_call, reject_call, end_call. rewrite Hoff.
  do 3 (split; [reflexivity|]). cbn [snd].
  assert (Hdirect :
    match truthy to with
    | Some u =>
        match live_target σ (Some u) with
        | Some t => [Emit t (call_ended (socket_userId σ s))]
        | None => []
        end
    | None => []
    end = []).
  { destruct (truthy to) as [u|] eqn:Hto; [|done].
    by rewrite (live_target_truthy _ _ _ Hto), Hoff. }
  rewrite Hdirect. cbn [app]. split; [|done].
  destruct (truthy (socket_matchId σ s)); [apply inbox_broadcast_self|done].
Qed.

Lemma call_control_offline_target_witness :
  live_target two_in_match (Some "u9") = None ∧
  accept_call "A" (Some "u9") two_in_match = (two_in_match, []) ∧
  snd (end_call "A" (Some "u9") two_in_match) =
    [Broadcast "A" "m1" (call_ended (Some "u1"))].
Proof.
  assert (H : live_target two_in_match (Some "u9") = None) by reflexivity.
  destruct (call_control_offline_target "A" (Some "u9") None two_in_match H)
    as (Ha & _ & _ & _ & He).
  split; [exact H|]. split; [exact Ha|]. rewrite He. reflexivity.
Defined.

(** C8 as stated fails for end-call: A ends a call naming a user that is
    not connected, and B, the other member of A's match, receives
    call-ended. *)
Lemma end_call_offline_still_broadcasts :
  let r := step (Some "key") 9 (EndCall "A" (Some "u9")) two_in_match in
  enabled two_in_match (EndCall "A" (Some "u9")) = true ∧
  live_target two_in_match (Some "u9") = None ∧
  inbox (fst r) "B" (snd r) = [call_ended (Some "u1")] ∧
  snd r ≠ [].
Proof. repeat split. discriminate. Qed.

(** ** Provider errors *)

(** C4, as amended: the provider 'error' handler notifies the session's
    connection with transcription:error and changes neither the session
    table nor any socket or registry map; the session's table entry goes
    away when the provider's 'close' event is handled, which also notifies
    the connection. *)
Theorem dg_error_notifies_only w msg σ ws :
  dgSockets σ !! w = Some ws →
  snd (dg_error w msg σ) = [Emit (owner ws) (transcription_error msg)] ∧
  deepgramConnections (fst (dg_error w msg σ)) = deepgramConnections σ ∧
  sockets (fst (dg_error w msg σ)) = sockets σ ∧
  matches (fst (dg_error w msg σ)) = matches σ ∧
  userSockets (fst (dg_error w msg σ)) = userSockets σ ∧
  ∀ code reason,
    let r := dg_close w code reason (fst (dg_error w msg σ)) in
    deepgramConnections (fst r) !! owner ws = None ∧
    snd r = [Emit (owner ws) (transcription_closed code reason)].
Proof.
  intros Hw. unfold dg_error. rewrite Hw. cbn [fst snd].
  do 5 (split; [reflexivity|]).
  intros code reason. unfold dg_close. cbn [dgSockets set_dgSockets].
  rewrite list_lookup_alter_eq, Hw. cbn [fmap option_fmap option_map fst snd].
  split; [|reflexivity].
  cbn. apply lookup_delete_eq.
Qed.

Lemma dg_error_notifies_only_witness :
  let σ := run (Some "key") provider_error_trace init in
  snd (dg_error 0 "boom" σ) = [Emit "A" (transcription_error "boom")] ∧
  deepgramConnections (fst (dg_error 0 "boom" σ)) !! "A" = Some 0%nat.
Proof.
  destruct (dg_error_notifies_only 0 "boom"
              (run (Some "key") provider_error_trace init)
              (DgWs "A" "en-US" OPEN []) eq_refl) as (Ho & Ht & _).
  split; [exact Ho|]. cbv zeta. rewrite Ht. reflexivity.
Defined.

(** C4 as stated fails: after the provider socket of A's session reports an
    error, the session table still maps A to that socket. *)
Lemma dg_error_keeps_session :
  let tr := provider_error_trace ++ [(4, DgError 0%nat "boom")] in
  admissible (Some "key") tr init = true ∧
  deepgramConnections (run (Some "key") provider_error_trace init) !! "A"
    = Some 0%nat ∧
  deepgramConnections (run (Some "key") tr init) !! "A" = Some 0%nat ∧
  is_connected (run (Some "key") tr init) "A" = true.
Proof. repeat split. Qed.

(** ** Registration *)

Lemma register_invalid now s uid mid σ :
  truthy uid = None ∨ truthy mid = None →
  register now s uid mid σ =
    (σ, [Emit s (error "validation" "Missing userId or matchId")]).
Proof.
  unfold register. intros [->| ->]; [done|]. by destruct (truthy uid).
Qed.

Lemma register_full now s uid mid σ u m mt :
  truthy uid = Some u → truthy mid = Some m →
  matches σ !! m = Some mt → (2 ≤ length mt)%nat → s ∉ mt →
  register now s uid mid σ =
    (labelled s u m σ,
     [Emit s (error "match_full" "This match already has 2 participants")]).
Proof.
  intros Hu Hm Hmt Hfull Hs. unfold register. rewrite Hu, Hm.
  st. rewrite Hmt. st. rewrite Hmt. unfold JsSet.size. cbn [default from_option id].
  rewrite (proj2 (Nat.leb_le _ _) Hfull), (proj2 (has_false _ _) Hs).
  reflexivity.
Qed.

Lemma not_full_check s mt :
  not_full s mt →
  (2 <=? JsSet.size mt)%nat && negb (JsSet.has s mt) = false.
Proof.
  unfold JsSet.size. intros [Hlt|Hin].
  - by rewrite (proj2 (Nat.leb_gt _ _) Hlt).
  - rewrite (proj2 (has_true _ _) Hin). apply andb_false_r.
Qed.

Lemma not_full_dec s mt : not_full s mt ∨ ((2 ≤ length mt)%nat ∧ s ∉ mt).
Proof.
  unfold not_full. destruct (decide (s ∈ mt)); [by left; right|].
  destruct (le_lt_dec 2 (length mt)); [by right|by left; left].
Qed.

Lemma register_ok now s uid mid σ u m md :
  truthy uid = Some u → truthy mid = Some m →
  not_full s (default [] (matches σ !! m)) →
  match matches σ !! m with
  | Some _ => matchMetadata σ !! m = Some md
  | None => md = Metadata now now
  end →
  let mt := default [] (matches σ !! m) in
  let σ' := registered now s u m mt md σ in
  register now s uid mid σ =
    (σ', [Emit s (joined m u (participants σ' (JsSet.add s mt))
                   (length (JsSet.add s mt)));
          Broadcast s m (user_joined u (length (JsSet.add s mt)))]).
Proof.
  intros Hu Hm Hnf Hmd mt σ'. subst mt σ'.
  unfold register, registered, participants. rewrite Hu, Hm. st.
  destruct (matches σ !! m) as [mt|] eqn:Hmt; st; cbn [default from_option id] in *.
  - rewrite Hmt. st. rewrite (not_full_check _ _ Hnf). st.
    rewrite Hmd. state_eq; try reflexivity.
  - rewrite ?lookup_insert_eq. st. subst md.
    rewrite (not_full_check _ _ Hnf). st.
    rewrite ?lookup_insert_eq.
    state_eq; rewrite ?insert_insert_eq; try reflexivity.
Qed.

Lemma register_throws now s uid mid σ u m mt :
  truthy uid = Some u → truthy mid = Some m →
  matches σ !! m = Some mt → not_full s mt →
  matchMetadata σ !! m = None →
  snd (register now s uid mid σ) =
    [Emit s (error "server_error" "Failed to register")].
Proof.
  intros Hu Hm Hmt Hnf Hmd. unfold register. rewrite Hu, Hm. st.
  rewrite Hmt. st. rewrite Hmt. cbn [default from_option id].
  rewrite (not_full_check _ _ Hnf). st. by rewrite Hmd.
Qed.

(** A register call is answered with match_full only when the named match
    holds two or more sockets and the caller is not one of them. *)
Lemma register_full_inv now s uid mid σ :
  snd (register now s uid mid σ) =
    [Emit s (error "match_full" "This match already has 2 participants")] →
  ∃ u m mt, truthy uid = Some u ∧ truthy mid = Some m ∧
    matches σ !! m = Some mt ∧ (2 ≤ length mt)%nat ∧ s ∉ mt.
Proof.
  intros Hout.
  destruct (truthy uid) as [u|] eqn:Hu;
    [|rewrite register_invalid in Hout by (by left); discriminate Hout].
  destruct (truthy mid) as [m|] eqn:Hm;
    [|rewrite register_invalid in Hout by (by right); discriminate Hout].
  destruct (matches σ !! m) as [mt|] eqn:Hmt.
  - destruct (not_full_dec s mt) as [Hnf|[Hsz Hs]].
    + destruct (matchMetadata σ !! m) as [md|] eqn:Hmd.
      * rewrite (register_ok now s uid mid σ u m md) in Hout;
          rewrite ?Hmt; try done.
      * rewrite (register_throws now s uid mid σ u m mt) in Hout by done.
        discriminate Hout.
    + by exists u, m, mt.
  - rewrite (register_ok now s uid mid σ u m (Metadata now now)) in Hout;
      rewrite ?Hmt; try done.
    left. simpl. lia.
Qed.

(** C10: when [register] answers match_full, the socket's labels and both
    index entries have already been written with the requested values,
    while the match table and the match metadata are as they were. *)
Theorem register_match_full_not_atomic now s uid mid σ sk :
  sockets σ !! s = Some sk →
  snd (register now s uid mid σ) =
    [Emit s (error "match_full" "This match already has 2 participants")] →
  ∃ u m, uid = Some u ∧ mid = Some m ∧
    userSockets (fst (register now s uid mid σ)) !! u = Some s ∧
    socketToUser (fst (register now s uid mid σ)) !! s = Some u ∧
    socket_userId (fst (register now s uid mid σ)) s = Some u ∧
    socket_matchId (fst (register now s uid mid σ)) s = Some m ∧
    matches (fst (register now s uid mid σ)) = matches σ ∧
    matchMetadata (fst (register now s uid mid σ)) = matchMetadata σ.
Proof.
  intros Hsk Hout.
  destruct (register_full_inv _ _ _ _ _ Hout)
    as (u & m & mt & Hu & Hm & Hmt & Hsz & Hs).
  rewrite (register_full now s uid mid σ u m mt) by done.
  exists u, m. apply truthy_Some in Hu as [-> _].
  apply truthy_Some in Hm as [-> _].
  unfold socket_userId, socket_matchId. st.
  rewrite !lookup_insert_eq, lookup_alter_eq, Hsk. done.
Qed.

Lemma register_match_full_not_atomic_witness :
  let r := register 9 "C" (Some "u1") (Some "m1") three_sockets in
  userSockets three_sockets !! "u1" = Some "A" ∧
  userSockets (fst r) !! "u1" = Some "C" ∧
  socket_matchId (fst r) "C" = Some "m1" ∧
  matches (fst r) !! "m1" = Some ["A"; "B"].
Proof.
  destruct (register_match_full_not_atomic 9 "C" (Some "u1") (Some "m1")
              three_sockets (Socket None None true {["C"]}) eq_refl eq_refl)
    as (u & m & Hu & Hm & Hus & _ & _ & Hmid & Hmt & _).
  injection Hu as <-. injection Hm as <-.
  split; [reflexivity|]. split; [exact Hus|]. split; [exact Hmid|].
  cbv zeta. rewrite Hmt. reflexivity.
Defined.

(** A register call answered with "joined" went through the whole handler. *)
Lemma register_joined_inv now s uid mid σ m u ps n rest :
  snd (register now s uid mid σ) = Emit s (joined m u ps n) :: rest →
  truthy uid = Some u ∧ truthy mid = Some m ∧
  not_full s (default [] (matches σ !! m)) ∧
  ∃ md,
    match matches σ !! m with
    | Some _ => matchMetadata σ !! m = Some md
    | None => md = Metadata now now
    end.
Proof.
  intros Hout.
  destruct (truthy uid) as [u'|] eqn:Hu;
    [|rewrite register_invalid in Hout by (by left); discriminate Hout].
  destruct (truthy mid) as [m'|] eqn:Hm;
    [|rewrite register_invalid in Hout by (by right); discriminate Hout].
  destruct (matches σ !! m') as [mt|] eqn:Hmt.
  - destruct (not_full_dec s mt) as [Hnf|[Hsz Hs]].
    + destruct (matchMetadata σ !! m') as [md|] eqn:Hmd.
      * rewrite (register_ok now s uid mid σ u' m' md) in Hout;
          rewrite ?Hmt; try done.
        cbn [snd] in Hout. injection Hout as <- <- _ _ _.
        rewrite Hmt. repeat split; try done. by exists md.
      * rewrite (register_throws now s uid mid σ u' m' mt) in Hout by done.
        discriminate Hout.
    + rewrite (register_full now s uid mid σ u' m' mt) in Hout by done.
      discriminate Hout.
  - assert (Hnf : not_full s []) by (left; simpl; lia).
    rewrite (register_ok now s uid mid σ u' m' (Metadata now now)) in Hout;
      rewrite ?Hmt; try done.
    cbn [snd] in Hout. injection Hout as <- <- _ _ _.
    rewrite Hmt. repeat split; try done. by eexists.
Qed.

Lemma socket_userId_registered now s u m mt md σ t :
  socket_userId (registered now s u m mt md σ) t =
    if decide (t = s) then sockets σ !! s ≫= (λ _, Some u)
    else socket_userId σ t.
Proof.
  unfold socket_userId, registered. st.
  destruct (decide (t = s)) as [->|Hts].
  - rewrite !lookup_alter_eq. by destruct (sockets σ !! s).
  - by rewrite !lookup_alter_ne.
Qed.

Lemma participants_registered_again now now' s u m mt mt' md md' σ l :
  participants
    (registered now' s u m mt' md' (registered now s u m mt md σ)) l =
  participants (registered now s u m mt md σ) l.
Proof.
  unfold participants. apply list_fmap_ext. intros _ t _.
  rewrite !socket_userId_registered.
  destruct (decide (t = s)) as [->|]; [|done].
  unfold registered. st. rewrite !lookup_alter_eq.
  by destruct (sockets σ !! s).
Qed.

(** C6: when a register call was answered with "joined", a further register
    call by the same socket naming the same match (with any non-empty
    userId) is answered with "joined" again, with the same participant count
    and a participant list of the same length (the same list when the userId
    is the same), and it leaves the match table, and so the member set of
    the match, as the first call left it. *)
Theorem register_twice_idempotent
    now1 now2 s uid uid' mid σ m u u' ps n rest :
  snd (register now1 s uid mid σ) = Emit s (joined m u ps n) :: rest →
  truthy uid' = Some u' →
  let σ1 := fst (register now1 s uid mid σ) in
  ∃ ps',
    snd (register now2 s uid' mid σ1) =
      [Emit s (joined m u' ps' n); Broadcast s m (user_joined u' n)] ∧
    length ps' = length ps ∧
    (uid' = uid → ps' = ps) ∧
    matches (fst (register now2 s uid' mid σ1)) = matches σ1 ∧
    JsSet.size <$> matches σ1 !! m = Some n ∧
    length ps = n.
Proof.
  intros Hout Hu' σ1.
  destruct (register_joined_inv _ _ _ _ _ _ _ _ _ _ Hout)
    as (Hu & Hm & Hnf & md & Hmd).
  pose proof (register_ok now1 s uid mid σ u m md Hu Hm Hnf Hmd) as H1.
  cbv zeta in H1. subst σ1. rewrite H1 in *. cbn [fst snd] in *.
  set (mt := default [] (matches σ !! m)) in *.
  injection Hout as <- <- _.
  assert (Hin : s ∈ JsSet.add s mt) by (apply elem_of_add; by left).
  assert (Hmt1 : matches (registered now1 s u m mt md σ) !! m =
                 Some (JsSet.add s mt))
    by (unfold registered; st; apply lookup_insert_eq).
  assert (Hmd1 : matchMetadata (registered now1 s u m mt md σ) !! m =
                 Some (touch now1 md))
    by (unfold registered; st; apply lookup_insert_eq).
  rewrite (register_ok now2 s uid' mid _ u' m (touch now1 md) Hu' Hm);
    rewrite ?Hmt1; cbn [default from_option id]; [|by right|done].
  cbn [fst snd]. rewrite (add_member s (JsSet.add s mt)) by done.
  eexists. split; [reflexivity|].
  split; [unfold participants; by rewrite !length_fmap|].
  split.
  { intros ->. assert (u' = u) as -> by congruence.
    apply participants_registered_again. }
  split.
  { unfold registered. st. rewrite insert_insert_eq.
    by rewrite (add_member s (JsSet.add s mt)). }
  split; [done|]. unfold participants. by rewrite length_fmap.
Qed.

Lemma register_twice_idempotent_witness :
  let σ1 := fst (register 4 "B" (Some "u2") (Some "m1")
                   (fst (register 3 "A" (Some "u1") (Some "m1")
                           (fst (connection "B"
                                   (fst (connection "A" init))))))) in
  snd (register 8 "B" (Some "u2") (Some "m1") σ1) =
    [Emit "B" (joined "m1" "u2" [Some "u1"; Some "u2"] 2);
     Broadcast "B" "m1" (user_joined "u2" 2)] ∧
  JsSet.size <$> matches σ1 !! "m1" = Some 2%nat.
Proof.
  destruct (register_twice_idempotent 4 8 "B" (Some "u2") (Some "u2")
              (Some "m1")
              (fst (register 3 "A" (Some "u1") (Some "m1")
                      (fst (connection "B" (fst (connection "A" init))))))
              "m1" "u2" "u2" [Some "u1"; Some "u2"] 2
              [Broadcast "B" "m1" (user_joined "u2" 2)] eq_refl eq_refl)
    as (ps' & Hout & _ & Hps & _ & Hsz & _).
  rewrite (Hps eq_refl) in Hout.
  split; [exact Hout|exact Hsz].
Defined.

(** ** The reaper *)

Lemma reap_entry_purge now σ m md :
  reap_entry now σ (m, md) =
    if purge now (matches σ !! m) md
    then set_matchMetadata (delete m) (set_matches (delete m) σ)
    else σ.
Proof.
  unfold reap_entry, purge.
  destruct (STALE_TIMEOUT <? now - lastActivity md); [|done].
  by destruct (matches σ !! m).
Qed.

Lemma reap_entry_ne now σ k md m :
  k ≠ m →
  matches (reap_entry now σ (k, md)) !! m = matches σ !! m ∧
  matchMetadata (reap_entry now σ (k, md)) !! m = matchMetadata σ !! m.
Proof.
  intros Hk. rewrite reap_entry_purge.
  destruct (purge now (matches σ !! k) md); [|done].
  st. by rewrite !lookup_delete_ne.
Qed.

Lemma reap_entry_eq now σ m md :
  matches (reap_entry now σ (m, md)) !! m =
    (if purge now (matches σ !! m) md then None else matches σ !! m) ∧
  matchMetadata (reap_entry now σ (m, md)) !! m =
    (if purge now (matches σ !! m) md then None
     else matchMetadata σ !! m).
Proof.
  rewrite reap_entry_purge.
  destruct (purge now (matches σ !! m) md); [|done].
  st. by rewrite !lookup_delete_eq.
Qed.

Lemma reap_entry_rest now σ e :
  sockets (reap_entry now σ e) = sockets σ ∧
  userSockets (reap_entry now σ e) = userSockets σ ∧
  socketToUser (reap_entry now σ e) = socketToUser σ ∧
  deepgramConnections (reap_entry now σ e) = deepgramConnections σ ∧
  dgSockets (reap_entry now σ e) = dgSockets σ.
Proof.
  destruct e as [m md]. rewrite reap_entry_purge.
  by destruct (purge now (matches σ !! m) md).
Qed.

(** Entries of other keys do not affect a match. *)
Lemma reap_fold_absent now l : ∀ σ m,
  m ∉ l.*1 →
  matches (foldl (reap_entry now) σ l) !! m = matches σ !! m ∧
  matchMetadata (foldl (reap_entry now) σ l) !! m = matchMetadata σ !! m.
Proof.
  induction l as [|[k md] l IH]; intros σ m Hm; [done|].
  cbn [foldl]. rewrite fmap_cons, not_elem_of_cons in Hm.
  destruct Hm as [Hk Hm]. cbn [fst] in Hk.
  destruct (IH (reap_entry now σ (k, md)) m Hm) as [-> ->].
  by apply reap_entry_ne.
Qed.

(** The loop decides each match once, on the state it had at the start. *)
Lemma reap_fold_present now l : ∀ σ m md,
  NoDup l.*1 → (m, md) ∈ l →
  matches (foldl (reap_entry now) σ l) !! m =
    (if purge now (matches σ !! m) md then None else matches σ !! m) ∧
  matchMetadata (foldl (reap_entry now) σ l) !! m =
    (if purge now (matches σ !! m) md then None
     else matchMetadata σ !! m).
Proof.
  induction l as [|[k d] l IH]; intros σ m md Hnd Hin.
  { by apply elem_of_nil in Hin. }
  rewrite fmap_cons in Hnd. apply NoDup_cons in Hnd as [Hk Hnd].
  cbn [fst] in Hk. cbn [foldl].
  apply elem_of_cons in Hin as [[= <- <-]|Hin].
  - destruct (reap_fold_absent now l (reap_entry now σ (m, md)) m Hk)
      as [-> ->].
    apply reap_entry_eq.
  - assert (k ≠ m) as Hkm.
    { intros ->. apply Hk. apply list_elem_of_fmap. by exists (m, md). }
    destruct (IH (reap_entry now σ (k, d)) m md Hnd Hin) as [-> ->].
    destruct (reap_entry_ne now σ k d m Hkm) as [-> ->]. done.
Qed.

Lemma reap_fold_rest now l : ∀ σ,
  sockets (foldl (reap_entry now) σ l) = sockets σ ∧
  userSockets (foldl (reap_entry now) σ l) = userSockets σ ∧
  socketToUser (foldl (reap_entry now) σ l) = socketToUser σ ∧
  deepgramConnections (foldl (reap_entry now) σ l) = deepgramConnections σ ∧
  dgSockets (foldl (reap_entry now) σ l) = dgSockets σ.
Proof.
  induction l as [|e l IH]; intros σ; [done|].
  cbn [foldl].
  destruct (IH (reap_entry now σ e)) as (-> & -> & -> & -> & ->).
  apply reap_entry_rest.
Qed.

Lemma purge_stale_empty now σ m md :
  matchMetadata σ !! m = Some md →
  purge now (matches σ !! m) md = true ↔ stale_empty now σ m.
Proof.
  intros Hmd. unfold purge, stale_empty.
  rewrite andb_true_iff, Z.ltb_lt. split.
  - intros [Hst Hsz]. destruct (matches σ !! m) as [mt|]; [|done].
    apply Nat.eqb_eq in Hsz. destruct mt; [|done].
    split; [done|]. by exists md.
  - intros [-> (md' & Hmd' & Hst)]. split; [congruence|done].
Qed.

(** What one run of the reaper does to each match. *)
Lemma reaper_lookup now σ m :
  (stale_empty now σ m →
     matches (reaper now σ) !! m = None ∧
     matchMetadata (reaper now σ) !! m = None) ∧
  (¬ stale_empty now σ m →
     matches (reaper now σ) !! m = matches σ !! m ∧
     matchMetadata (reaper now σ) !! m = matchMetadata σ !! m).
Proof.
  unfold reaper.
  destruct (matchMetadata σ !! m) as [md|] eqn:Hmd.
  - destruct (reap_fold_present now (map_to_list (matchMetadata σ)) σ m md)
      as [-> ->].
    { apply NoDup_fst_map_to_list. }
    { by apply elem_of_map_to_list. }
    pose proof (purge_stale_empty now σ m md Hmd) as Hp.
    destruct (purge now (matches σ !! m) md).
    + split; [done|]. intros Hn. destruct Hn. by apply Hp.
    + split; [|by rewrite Hmd]. intros Hs%Hp. discriminate Hs.
  - destruct (reap_fold_absent now (map_to_list (matchMetadata σ)) σ m)
      as [-> ->].
    { intros ([k d] & -> & Hin%elem_of_map_to_list)%list_elem_of_fmap.
      cbn [fst] in Hmd. congruence. }
    split; [|by rewrite Hmd].
    intros (_ & md & Hmd' & _). congruence.
Qed.

Lemma reaper_effect now σ :
  (∀ m, stale_empty now σ m →
     matches (reaper now σ) !! m = None ∧
     matchMetadata (reaper now σ) !! m = None) ∧
  (∀ m, ¬ stale_empty now σ m →
     matches (reaper now σ) !! m = matches σ !! m ∧
     matchMetadata (reaper now σ) !! m = matchMetadata σ !! m) ∧
  sockets (reaper now σ) = sockets σ.
Proof.
  split; [intros m; apply reaper_lookup|].
  split; [intros m; apply reaper_lookup|].
  apply reap_fold_rest.
Qed.

(** C9: one run of the reaper deletes the match-table entry and the metadata
    of every match whose member set is empty and whose [lastActivity] is
    more than 30 minutes before the run, and of no other match: every other
    match and its metadata, and all other tables, are as they were. *)
Theorem reaper_purges_stale_empty now σ :
  STALE_TIMEOUT = 1800000 ∧
  (∀ m, stale_empty now σ m →
     matches (reaper now σ) !! m = None ∧
     matchMetadata (reaper now σ) !! m = None) ∧
  (∀ m, ¬ stale_empty now σ m →
     matches (reaper now σ) !! m = matches σ !! m ∧
     matchMetadata (reaper now σ) !! m = matchMetadata σ !! m) ∧
  sockets (reaper now σ) = sockets σ ∧
  userSockets (reaper now σ) = userSockets σ ∧
  socketToUser (reaper now σ) = socketToUser σ ∧
  deepgramConnections (reaper now σ) = deepgramConnections σ ∧
  dgSockets (reaper now σ) = dgSockets σ.
Proof.
  split; [reflexivity|].
  split; [intros m; apply reaper_lookup|].
  split; [intros m; apply reaper_lookup|].
  apply reap_fold_rest.
Qed.

Lemma reaper_purges_stale_empty_witness :
  let σ' := reaper 1800001 reaper_example in
  stale_empty 1800001 reaper_example "gone" ∧
  matches σ' !! "gone" = None ∧ matchMetadata σ' !! "gone" = None ∧
  matches σ' !! "fresh" = Some [] ∧
  matches σ' !! "old" = Some ["A"] ∧
  matchMetadata σ' !! "old" = Some (Metadata 0 0).
Proof.
  destruct (reaper_purges_stale_empty 1800001 reaper_example)
    as (_ & Hdel & Hkeep & _).
  assert (Hgone : stale_empty 1800001 reaper_example "gone").
  { split; [reflexivity|]. exists (Metadata 0 0). split; reflexivity. }
  assert (Hfresh : ¬ stale_empty 1800001 reaper_example "fresh").
  { intros (_ & md & Hmd & Hst). injection Hmd as <-. discriminate Hst. }
  assert (Hold : ¬ stale_empty 1800001 reaper_example "old").
  { intros (Hmt & _). discriminate Hmt. }
  split; [exact Hgone|].
  destruct (Hdel "gone" Hgone) as [-> ->].
  destruct (Hkeep "fresh" Hfresh) as [-> _].
  destruct (Hkeep "old" Hold) as [-> ->].
  repeat split.
Defined.

(** ** Disconnection *)

Lemma close_existing_core s σ :
  sockets (close_existing s σ) = sockets σ ∧
  matches (close_existing s σ) = matches σ ∧
  userSockets (close_existing s σ) = userSockets σ ∧
  socketToUser (close_existing s σ) = socketToUser σ ∧
  matchMetadata (close_existing s σ) = matchMetadata σ.
Proof. unfold close_existing. by destruct (deepgramConnections σ !! s). Qed.

Lemma socket_labels_closed s σ :
  socket_userId (close_existing s (set_sockets (alter closed_socket s) σ)) s
    = socket_userId σ s ∧
  socket_matchId (close_existing s (set_sockets (alter closed_socket s) σ)) s
    = socket_matchId σ s.
Proof.
  unfold socket_userId, socket_matchId.
  destruct (close_existing_core s (set_sockets (alter closed_socket s) σ))
    as (-> & _).
  st. rewrite lookup_alter_eq. by destruct (sockets σ !! s).
Qed.

Lemma disconnect_sockets s σ :
  sockets (fst (disconnect s σ)) = alter closed_socket s (sockets σ).
Proof.
  unfold disconnect, leave_match.
  set (σ1 := close_existing s (set_sockets (alter closed_socket s) σ)).
  assert (sockets σ1 = alter closed_socket s (sockets σ)) as H1.
  { subst σ1.
    by destruct (close_existing_core s
                   (set_sockets (alter closed_socket s) σ)) as (-> & _). }
  destruct (truthy (socket_userId σ1 s)); [|done].
  destruct (truthy (socket_matchId _ s)); [|done].
  st. destruct (matches σ1 !! _); [|done].
  by destruct (JsSet.size _ =? 0)%nat.
Qed.

Lemma disconnect_unregistered s σ :
  truthy (socket_userId σ s) = None →
  snd (disconnect s σ) = [] ∧
  matches (fst (disconnect s σ)) = matches σ ∧
  matchMetadata (fst (disconnect s σ)) = matchMetadata σ ∧
  userSockets (fst (disconnect s σ)) = userSockets σ ∧
  socketToUser (fst (disconnect s σ)) = socketToUser σ.
Proof.
  intros Hu. unfold disconnect.
  destruct (socket_labels_closed s σ) as [-> _]. rewrite Hu. cbn [fst snd].
  by destruct (close_existing_core s
                 (set_sockets (alter closed_socket s) σ))
    as (_ & -> & -> & -> & ->).
Qed.

(** The registry part of the 'disconnect' handler for a socket whose
    [userId] is set. *)
Lemma disconnect_registered s σ u :
  truthy (socket_userId σ s) = Some u →
  userSockets (fst (disconnect s σ)) = delete u (userSockets σ) ∧
  socketToUser (fst (disconnect s σ)) = delete s (socketToUser σ) ∧
  match truthy (socket_matchId σ s) ≫= (λ m, pair m <$> matches σ !! m) with
  | Some (m, mt) =>
      snd (disconnect s σ) =
        [Broadcast s m (user_left u); Broadcast s m (call_ended (Some u))] ∧
      if decide (JsSet.delete s mt = []) then
        matches (fst (disconnect s σ)) = delete m (matches σ) ∧
        matchMetadata (fst (disconnect s σ)) = delete m (matchMetadata σ)
      else
        matches (fst (disconnect s σ)) =
          <[m:=JsSet.delete s mt]> (matches σ) ∧
        matchMetadata (fst (disconnect s σ)) = matchMetadata σ
  | None =>
      snd (disconnect s σ) = [] ∧
      matches (fst (disconnect s σ)) = matches σ ∧
      matchMetadata (fst (disconnect s σ)) = matchMetadata σ
  end.
Proof.
  intros Hu. unfold disconnect.
  destruct (socket_labels_closed s σ) as [Hlu Hlm]. rewrite Hlu, Hu.
  unfold leave_match.
  set (σ1 := close_existing s (set_sockets (alter closed_socket s) σ)) in *.
  assert (socket_matchId
            (set_socketToUser (delete s) (set_userSockets (delete u) σ1)) s
          = socket_matchId σ s) as -> by (rewrite <- Hlm; done).
  destruct (close_existing_core s (set_sockets (alter closed_socket s) σ))
    as (_ & Hm & Hus & Hsu & Hmd). fold σ1 in Hm, Hus, Hsu, Hmd. st.
  destruct (truthy (socket_matchId σ s)) as [m|]; cbn [mbind option_bind];
    [|st; by rewrite Hm, Hus, Hsu, Hmd].
  st. rewrite Hm. destruct (matches σ !! m) as [mt|];
    cbn [fmap option_fmap option_map];
    [|st; by rewrite Hm, Hus, Hsu, Hmd].
  unfold JsSet.size.
  destruct (decide (JsSet.delete s mt = [])) as [He|Hne].
  - rewrite He. cbn [length Nat.eqb]. st.
    rewrite Hm, Hus, Hsu, Hmd, delete_insert_eq. done.
  - destruct (JsSet.delete s mt) as [|x l] eqn:Hd; [done|].
    cbn [length Nat.eqb]. st. by rewrite Hm, Hus, Hsu, Hmd.
Qed.

(** ** The registry invariant *)

Lemma sockets_grow_refl σ σ' : sockets σ' = sockets σ → sockets_grow σ σ'.
Proof. intros Heq t sk Ht. exists sk. by rewrite Heq. Qed.

Lemma match_wf_mono σ σ' m mt :
  sockets_grow σ σ' →
  (is_Some (matchMetadata σ !! m) → is_Some (matchMetadata σ' !! m)) →
  match_wf σ m mt → match_wf σ' m mt.
Proof.
  intros Hg Hmd (Hnd & Hlen & Hne & Hname & Hmeta & Hmem).
  repeat split; auto.
  intros t Ht. destruct (Hmem t Ht) as (sk & Hsk & Hroom).
  destruct (Hg t sk Hsk) as (sk' & Hsk' & Hc).
  exists sk'. split; [done|]. intros Hcon.
  destruct (Hc Hcon) as [Hcon' Hsub]. apply Hsub. auto.
Qed.

(** Handlers that leave the sockets, the match table and the set of
    matches with metadata alone keep the invariant. *)
Lemma wf_same_core σ σ' :
  sockets σ' = sockets σ → matches σ' = matches σ →
  (∀ m, is_Some (matchMetadata σ' !! m) ↔ is_Some (matchMetadata σ !! m)) →
  wf σ → wf σ'.
Proof.
  intros Hs Hm Hmd [H1 H2 H3]. split.
  - intros m mt. rewrite Hm. intros Hmt.
    apply (match_wf_mono σ);
      [by apply sockets_grow_refl|apply Hmd|by apply H1].
  - intros m. rewrite Hm, Hmd. apply H2.
  - intros s sk. rewrite Hs. apply H3.
Qed.

Lemma wf_init : wf init.
Proof.
  split; cbn.
  - intros m mt Hm. by rewrite lookup_empty in Hm.
  - intros m Hm. rewrite lookup_empty in Hm. by apply is_Some_None in Hm.
  - intros s sk Hs. by rewrite lookup_empty in Hs.
Qed.

Lemma wf_step_gen σ σ' :
  wf σ → sockets_grow σ σ' →
  (∀ s sk, sockets σ' !! s = Some sk →
     userId sk ≠ Some "" ∧ matchId sk ≠ Some "") →
  (∀ m mt, matches σ' !! m = Some mt →
     (matches σ !! m = Some mt ∧
      (is_Some (matchMetadata σ !! m) → is_Some (matchMetadata σ' !! m))) ∨
     match_wf σ' m mt) →
  (∀ m, is_Some (matchMetadata σ' !! m) → is_Some (matches σ' !! m)) →
  wf σ'.
Proof.
  intros [H1 H2 H3] Hg Hl Hm Hmd. split; [|done|done].
  intros m mt Hmt. destruct (Hm m mt Hmt) as [[Hold Hmeta]|Hnew]; [|done].
  apply (match_wf_mono σ); [done|done|by apply H1].
Qed.

Lemma length_add x l : (length (JsSet.add x l) ≤ S (length l))%nat.
Proof.
  destruct (decide (x ∈ l)).
  - rewrite add_member by done. lia.
  - rewrite add_fresh by done. rewrite length_app. simpl. lia.
Qed.

Lemma is_connected_Some σ s :
  is_connected σ s = true →
  ∃ sk, sockets σ !! s = Some sk ∧ connected sk = true.
Proof.
  unfold is_connected. destruct (sockets σ !! s) as [sk|]; [|done].
  intros Hc. by exists sk.
Qed.

Lemma sockets_grow_alter σ σ' s f :
  sockets σ' = alter f s (sockets σ) →
  (∀ sk, connected (f sk) = true →
         connected sk = true ∧ rooms sk ⊆ rooms (f sk)) →
  sockets_grow σ σ'.
Proof.
  intros Heq Hf t sk Ht. rewrite Heq.
  destruct (decide (s = t)) as [->|Hne].
  - exists (f sk). rewrite lookup_alter_eq, Ht. split; [done|apply Hf].
  - exists sk. rewrite lookup_alter_ne by done. done.
Qed.

Lemma wf_connection s σ :
  sockets σ !! s = None → wf σ → wf (fst (connection s σ)).
Proof.
  intros Hs Hwf. apply (wf_step_gen σ); [done|..];
    unfold connection, sockets_grow; st.
  - intros t sk Ht. exists sk. split; [|done].
    rewrite lookup_insert_ne; [done|]. intros ->. congruence.
  - intros t sk. destruct (decide (s = t)) as [->|Hne].
    + rewrite lookup_insert_eq. by intros [= <-].
    + rewrite lookup_insert_ne by done. apply Hwf.
  - intros m mt Hmt. by left.
  - apply Hwf.
Qed.

Lemma wf_labelled s u m σ :
  u ≠ "" → m ≠ "" → wf σ → wf (labelled s u m σ).
Proof.
  intros Hu Hm Hwf. apply (wf_step_gen σ); [done|..]; st.
  - intros t sk Ht. destruct (decide (s = t)) as [->|Hne].
    + rewrite lookup_alter_eq, Ht. eexists. split; [reflexivity|]. done.
    + rewrite lookup_alter_ne by done. by exists sk.
  - intros t sk. destruct (decide (s = t)) as [->|Hne].
    + rewrite lookup_alter_eq.
      destruct (sockets σ !! t) as [sk0|]; [|done].
      intros [= <-]. cbn. split; congruence.
    + rewrite lookup_alter_ne by done. apply Hwf.
  - intros m' mt Hmt. by left.
  - apply Hwf.
Qed.

Lemma wf_registered now s u m mt md σ sk0 :
  u ≠ "" → m ≠ "" → sockets σ !! s = Some sk0 →
  mt = default [] (matches σ !! m) → not_full s mt →
  wf σ → wf (registered now s u m mt md σ).
Proof.
  intros Hu Hm Hs Hmt Hnf Hwf.
  assert (Hgrow : sockets_grow σ (registered now s u m mt md σ)).
  { unfold registered. intros t sk Ht. st.
    destruct (decide (s = t)) as [->|Hne].
    - rewrite !lookup_alter_eq, Ht. eexists. split; [reflexivity|].
      cbn. intros Hc. split; [done|]. apply union_subseteq_r.
    - rewrite !lookup_alter_ne by done. by exists sk. }
  assert (Hold : NoDup mt ∧ (length mt ≤ 2)%nat ∧
            ∀ t, t ∈ mt → ∃ sk, sockets σ !! t = Some sk ∧
                                (connected sk = true → m ∈ rooms sk)).
  { destruct (matches σ !! m) as [mt0|] eqn:Hm0; cbn in Hmt; subst mt.
    - destruct (wf_matches σ Hwf m mt0 Hm0) as (? & ? & _ & _ & _ & ?).
      done.
    - split; [apply NoDup_nil_2|]. split; [simpl; lia|].
      intros t Ht. by apply elem_of_nil in Ht. }
  destruct Hold as (Hnd & Hlen & Hmem).
  apply (wf_step_gen σ); [done|done|..]; unfold registered; st.
  - intros t sk. destruct (decide (s = t)) as [->|Hne].
    + rewrite !lookup_alter_eq, Hs. intros [= <-]. cbn. split; congruence.
    + rewrite !lookup_alter_ne by done. apply Hwf.
  - intros m' mt'. destruct (decide (m = m')) as [<-|Hne].
    + rewrite lookup_insert_eq. intros [= <-]. right.
      split; [by apply NoDup_add|]. split.
      { destruct Hnf as [Hlt|Hin].
        - pose proof (length_add s mt). lia.
        - by rewrite add_member. }
      split. { intros He. assert (s ∈ JsSet.add s mt) as Hin
                 by (apply elem_of_add; by left).
               rewrite He in Hin. by apply elem_of_nil in Hin. }
      split; [done|]. split; [by rewrite lookup_insert_eq|].
      intros t [->|Ht]%elem_of_add.
      * rewrite !lookup_alter_eq, Hs. eexists. split; [reflexivity|].
        cbn. intros _. apply elem_of_union_l. by apply elem_of_singleton.
      * destruct (Hmem t Ht) as (sk & Hsk & Hroom).
        destruct (Hgrow t sk Hsk) as (sk' & Hsk' & Hc).
        unfold registered in Hsk'. st. exists sk'. split; [done|].
        intros Hcon. destruct (Hc Hcon) as [Hcon' Hsub].
        apply Hsub. auto.
    + rewrite lookup_insert_ne by done. intros Hmt'. left.
      split; [done|]. by rewrite lookup_insert_ne.
  - intros m'. destruct (decide (m = m')) as [<-|Hne].
    + by rewrite !lookup_insert_eq.
    + rewrite !lookup_insert_ne by done. apply Hwf.
Qed.

Lemma wf_register now s uid mid σ :
  is_connected σ s = true → wf σ → wf (fst (register now s uid mid σ)).
Proof.
  intros (sk0 & Hs & _)%is_connected_Some Hwf.
  destruct (truthy uid) as [u|] eqn:Hu;
    [|by rewrite register_invalid by (by left)].
  destruct (truthy mid) as [m|] eqn:Hm;
    [|by rewrite register_invalid by (by right)].
  destruct (truthy_Some _ _ Hu) as [_ Hune].
  destruct (truthy_Some _ _ Hm) as [_ Hmne].
  destruct (matches σ !! m) as [mt|] eqn:Hmt.
  - destruct (wf_matches σ Hwf m mt Hmt) as (_ & _ & _ & _ & [md Hmd] & _).
    destruct (not_full_dec s mt) as [Hnf|[Hsz Hout]].
    + rewrite (register_ok now s uid mid σ u m md); rewrite ?Hmt; try done.
      cbn [fst default from_option id].
      apply (wf_registered _ _ _ _ _ _ _ sk0); try done. by rewrite Hmt.
    + rewrite (register_full now s uid mid σ u m mt) by done.
      by apply wf_labelled.
  - assert (Hnf : not_full s []) by (left; simpl; lia).
    rewrite (register_ok now s uid mid σ u m (Metadata now now));
      rewrite ?Hmt; try done.
    cbn [fst default from_option id].
    apply (wf_registered _ _ _ _ _ _ _ sk0); try done. by rewrite Hmt.
Qed.

Lemma sockets_grow_disconnect s σ : sockets_grow σ (fst (disconnect s σ)).
Proof.
  apply (sockets_grow_alter _ _ s closed_socket); [apply disconnect_sockets|].
  intros sk Hc. discriminate Hc.
Qed.

Lemma labels_disconnect s σ :
  wf σ →
  ∀ t sk, sockets (fst (disconnect s σ)) !! t = Some sk →
          userId sk ≠ Some "" ∧ matchId sk ≠ Some "".
Proof.
  intros Hwf t sk. rewrite disconnect_sockets.
  destruct (decide (s = t)) as [->|Hne].
  - rewrite lookup_alter_eq.
    destruct (sockets σ !! t) as [sk0|] eqn:Ht; [|done].
    intros [= <-]. apply (wf_labels σ Hwf t sk0 Ht).
  - rewrite lookup_alter_ne by done. apply Hwf.
Qed.

Lemma bind_match_Some σ (o : option string) m mt :
  o ≫= (λ m, pair m <$> matches σ !! m) = Some (m, mt) →
  o = Some m ∧ matches σ !! m = Some mt.
Proof.
  destruct o as [m'|]; [|done]. cbn.
  destruct (matches σ !! m') as [mt'|] eqn:Hm; [|done].
  cbn. intros [= <- <-]. done.
Qed.

Lemma wf_disconnect s σ : wf σ → wf (fst (disconnect s σ)).
Proof.
  intros Hwf.
  apply (wf_step_gen σ);
    [done|apply sockets_grow_disconnect|by apply labels_disconnect|..].
  - destruct (truthy (socket_userId σ s)) as [u|] eqn:Hu.
    + destruct (disconnect_registered s σ u Hu) as (_ & _ & H).
      destruct (truthy (socket_matchId σ s) ≫= _) as [[m mt]|] eqn:Hb.
      * apply bind_match_Some in Hb as [_ Hmt].
        destruct H as [_ H].
        destruct (wf_matches σ Hwf m mt Hmt)
          as (Hnd & Hlen & _ & Hname & Hmd & Hmem).
        destruct (decide (JsSet.delete s mt = [])) as [He|Hne].
        -- destruct H as [-> ->]. intros m' mt'.
           destruct (decide (m = m')) as [<-|Hmm].
           ++ by rewrite lookup_delete_eq.
           ++ rewrite !lookup_delete_ne by done. by left.
        -- destruct H as [-> Hmd']. intros m' mt'.
           destruct (decide (m = m')) as [<-|Hmm].
           ++ rewrite lookup_insert_eq. intros [= <-]. right.
              unfold match_wf. rewrite Hmd'.
              split; [by apply NoDup_delete|]. split.
              { pose proof (length_delete s mt). lia. }
              split; [done|]. split; [done|]. split; [done|].
              intros t [Hts Ht]%elem_of_delete.
              destruct (Hmem t Ht) as (sk & Hsk & Hroom).
              exists sk. rewrite disconnect_sockets.
              by rewrite lookup_alter_ne.
           ++ rewrite lookup_insert_ne, Hmd' by done. by left.
      * destruct H as (_ & -> & ->). by left.
    + destruct (disconnect_unregistered s σ Hu) as (_ & -> & -> & _).
      by left.
  - destruct (truthy (socket_userId σ s)) as [u|] eqn:Hu.
    + destruct (disconnect_registered s σ u Hu) as (_ & _ & H).
      destruct (truthy (socket_matchId σ s) ≫= _) as [[m mt]|] eqn:Hb.
      * destruct H as [_ H].
        destruct (decide (JsSet.delete s mt = [])) as [He|Hne];
          destruct H as [-> ->]; intros m'.
        -- destruct (decide (m = m')) as [<-|Hmm].
           ++ rewrite lookup_delete_eq. by intros ?%is_Some_None.
           ++ rewrite !lookup_delete_ne by done. apply Hwf.
        -- destruct (decide (m = m')) as [<-|Hmm].
           ++ by rewrite lookup_insert_eq.
           ++ rewrite lookup_insert_ne by done. apply Hwf.
      * destruct H as (_ & -> & ->). apply Hwf.
    + destruct (disconnect_unregistered s σ Hu) as (_ & -> & -> & _).
      apply Hwf.
Qed.

Lemma stale_empty_dec now σ m :
  stale_empty now σ m ∨ ¬ stale_empty now σ m.
Proof.
  unfold stale_empty.
  destruct (matchMetadata σ !! m) as [md|];
    [|right; by intros (_ & md & [=] & _)].
  destruct (decide (matches σ !! m = Some [])) as [Hm|Hm];
    [|right; by intros [? _]].
  destruct (decide (STALE_TIMEOUT < now - lastActivity md)) as [Hlt|Hge].
  - left. split; [done|]. by exists md.
  - right. intros (_ & md' & [= <-] & Hlt). done.
Qed.

Lemma wf_reaper now σ : wf σ → wf (reaper now σ).
Proof.
  intros Hwf.
  destruct (reaper_effect now σ) as (Hdel & Hkeep & Hs).
  apply (wf_step_gen σ); [done|by apply sockets_grow_refl|..].
  - intros s sk. rewrite Hs. apply Hwf.
  - intros m mt Hmt. left.
    destruct (stale_empty_dec now σ m) as [Hst|Hst].
    + destruct (Hdel m Hst) as [Hn _]. congruence.
    + destruct (Hkeep m Hst) as [Hm Hmd]. rewrite <- Hm, Hmd. done.
  - intros m Hmd.
    destruct (stale_empty_dec now σ m) as [Hst|Hst].
    + destruct (Hdel m Hst) as [_ Hn]. rewrite Hn in Hmd.
      by apply is_Some_None in Hmd.
    + destruct (Hkeep m Hst) as [Hm Hmd']. rewrite Hm.
      rewrite Hmd' in Hmd. by apply Hwf.
Qed.

Lemma wf_initiate_call now s to σ :
  wf σ → wf (fst (initiate_call now s to σ)).
Proof.
  intros Hwf. unfold initiate_call.
  destruct (live_target σ to); [|done].
  destruct (truthy (socket_matchId σ s)) as [m|]; [|done].
  destruct (matchMetadata σ !! m) as [md|] eqn:Hmd; [|done].
  apply (wf_same_core σ); [done|done| |done]. st.
  intros m'. destruct (decide (m = m')) as [<-|Hne].
  - rewrite lookup_insert_eq, Hmd. split; by eexists.
  - by rewrite lookup_insert_ne.
Qed.

(** *** Reachable states

    [apiKey] is fixed for the life of the process. *)
Section reachability.

Context (apiKey : option string).

(** The transcription bridge never touches the sockets or the registry. *)
Lemma bridge_core now e σ :
  match e with
  | TranscriptionStart _ _ | AudioChunk _ _ | TranscriptionStop _
  | DgOpen _ | DgMessage _ _ _ | DgClose _ _ _ | DgError _ _ => True
  | _ => False
  end →
  sockets (fst (step apiKey now e σ)) = sockets σ ∧
  matches (fst (step apiKey now e σ)) = matches σ ∧
  userSockets (fst (step apiKey now e σ)) = userSockets σ ∧
  socketToUser (fst (step apiKey now e σ)) = socketToUser σ ∧
  matchMetadata (fst (step apiKey now e σ)) = matchMetadata σ.
Proof.
  destruct e; try done; intros _; cbn [step].
  - unfold transcription_start. destruct (truthy apiKey) as [key|]; [|done].
    cbv zeta. destruct (websocket_throws key _); st;
      apply close_existing_core.
  - unfold audio_chunk. destruct (deepgramConnections σ !! s); [|done].
    destruct (dgSockets σ !! _) as [ws|]; [|done].
    by destruct (readyState ws).
  - apply close_existing_core.
  - unfold dg_open. by destruct (dgSockets σ !! w).
  - unfold dg_message. destruct (dgSockets σ !! w); [|done].
    by destruct (truthy transcript).
  - unfold dg_close. by destruct (dgSockets σ !! w).
  - unfold dg_error. by destruct (dgSockets σ !! w).
Qed.

(** Every handler preserves the registry invariant. *)
Lemma wf_step now e σ :
  wf σ → enabled σ e = true → wf (fst (step apiKey now e σ)).
Proof.
  intros Hwf Hen.
  destruct e;
    try (match goal with
         | |- wf (fst (step _ _ ?e _)) =>
             destruct (bridge_core now e σ I)
               as (Hs & Hm & _ & _ & Hmd)
         end;
         apply (wf_same_core σ); [exact Hs|exact Hm| |done];
         intros m; by rewrite Hmd);
    cbn [step enabled] in *.
  - apply wf_connection; [|done]. by apply bool_decide_eq_true in Hen.
  - by apply wf_register.
  - by apply wf_initiate_call.
  - unfold accept_call. by destruct (live_target σ to).
  - unfold reject_call. by destruct (live_target σ to).
  - done.
  - unfold offer. by destruct (live_target σ to).
  - unfold answer. by destruct (live_target σ to).
  - unfold ice_candidate. by destruct (live_target σ to).
  - by apply wf_disconnect.
  - by apply wf_reaper.
Qed.

Lemma reachable_wf σ : reachable apiKey σ → wf σ.
Proof.
  induction 1 as [|σ now e _ IH Hen]; [apply wf_init|by apply wf_step].
Qed.

Lemma run_reachable tr : ∀ σ,
  reachable apiKey σ → admissible apiKey tr σ = true →
  reachable apiKey (run apiKey tr σ).
Proof.
  induction tr as [|[now e] tr IH]; intros σ Hr Had; [done|].
  cbn [run admissible] in *. apply andb_true_iff in Had as [Hen Had].
  apply IH; [|done]. by apply reachable_step.
Qed.

End reachability.

(** ** Capacity of a match *)

(** C1: in every state the server can reach, a match holds at most two
    distinct sockets; and a register call with a non-empty userId that names
    a match holding two sockets, from a socket that is not one of them, is
    answered with a match_full error and leaves the match table as it
    was. *)
Theorem match_holds_at_most_two apiKey σ :
  reachable apiKey σ →
  (∀ m mt, matches σ !! m = Some mt →
     NoDup mt ∧ (JsSet.size mt ≤ 2)%nat) ∧
  (∀ now s u m mt,
     u ≠ "" → matches σ !! m = Some mt → JsSet.size mt = 2%nat → s ∉ mt →
     snd (register now s (Some u) (Some m) σ) =
       [Emit s (error "match_full"
                  "This match already has 2 participants")] ∧
     matches (fst (register now s (Some u) (Some m) σ)) = matches σ).
Proof.
  intros Hwf%reachable_wf. split.
  - intros m mt Hmt.
    by destruct (wf_matches σ Hwf m mt Hmt) as (? & ? & _).
  - intros now s u m mt Hu Hmt Hsz Hs.
    destruct (wf_matches σ Hwf m mt Hmt) as (_ & _ & _ & Hm & _).
    rewrite (register_full now s (Some u) (Some m) σ u m mt);
      try done; try by apply truthy_of_Some.
    unfold JsSet.size in Hsz. lia.
Qed.

Lemma three_sockets_reachable : reachable (Some "key") three_sockets.
Proof. by apply run_reachable; [apply reachable_init|]. Qed.

Lemma match_holds_at_most_two_witness :
  let r := register 9 "C" (Some "u3") (Some "m1") three_sockets in
  matches three_sockets !! "m1" = Some ["A"; "B"] ∧
  snd r = [Emit "C" (error "match_full"
                       "This match already has 2 participants")] ∧
  matches (fst r) !! "m1" = Some ["A"; "B"].
Proof.
  destruct (match_holds_at_most_two (Some "key") three_sockets
              three_sockets_reachable) as [_ H].
  destruct (H 9 "C" "u3" "m1" ["A"; "B"]) as [Hout Hm];
    [done|reflexivity|reflexivity| |].
  { intros [[=]|[[=]|[]%elem_of_nil]%elem_of_cons]%elem_of_cons. }
  split; [reflexivity|]. split; [exact Hout|].
  cbv zeta. rewrite Hm. reflexivity.
Defined.

(** ** Disconnecting a registered socket *)


(** When the last member disconnects the match and its metadata go. *)
Example disconnect_last_member :
  let σ := run (Some "key")
             [(5, Disconnect "A"); (6, Disconnect "B")] two_in_match in
  matches σ !! "m1" = None ∧ matchMetadata σ !! "m1" = None.
Proof. split; reflexivity. Qed.

(** ** Starting transcription *)

Lemma transcription_start_no_key apiKey s lang σ :
  truthy apiKey = None →
  transcription_start apiKey s lang σ =
    (σ, [Emit s (transcription_error
                   "DEEPGRAM_API_KEY not configured on server")]).
Proof. intros Hk. unfold transcription_start. by rewrite Hk. Qed.

(** X21: with a credential, and a language (the requested one, or en-US
    when none is given) for which the provider socket can be constructed, a
    start on a socket that has a session in the table calls [close()] on
    that session's provider socket and replaces the table entry by a newly
    created provider socket, which is connecting and has that language. *)
Lemma transcription_start_restart apiKey key s lang σ w ws :
  truthy apiKey = Some key →
  websocket_throws key (default "en-US" (truthy lang)) = false →
  deepgramConnections σ !! s = Some w → dgSockets σ !! w = Some ws →
  let σ' := fst (transcription_start apiKey s lang σ) in
  let w' := length (dgSockets σ) in
  snd (transcription_start apiKey s lang σ) = [] ∧
  dgSockets σ' !! w = Some (ws_close ws) ∧
  active (ws_close ws) = false ∧
  deepgramConnections σ' !! s = Some w' ∧
  dgSockets σ' !! w' =
    Some (DgWs s (default "en-US" (truthy lang)) CONNECTING []) ∧
  w' ≠ w.
Proof.
  intros Hk Hth Hw Hws σ' w'. subst σ' w'.
  unfold transcription_start, close_existing. rewrite Hk, Hw.
  cbv zeta. rewrite Hth. st.
  pose proof (lookup_lt_Some _ _ _ Hws) as Hlt.
  rewrite length_alter, lookup_insert_eq.
  split; [done|]. split.
  { rewrite lookup_app_l by (rewrite length_alter; lia).
    by rewrite list_lookup_alter_eq, Hws. }
  split.
  { unfold ws_close, active.
    destruct (readyState ws) eqn:Hr; cbn; by rewrite ?Hr. }
  split; [done|]. split; [|lia].
  rewrite lookup_app_r by (rewrite length_alter; lia).
  by rewrite length_alter, Nat.sub_diag.
Qed.

(** C7, failing run: A restarts transcription, which closes session 0 and
    records session 1; when the 'close' event of session 0 arrives, its
    handler deletes A's table entry, which by then is session 1; the next
    start finds no entry, closes nothing and opens session 2, so that A has
    two sessions at once, one open and one connecting, and only the second
    is in the table. *)
Theorem restart_after_stale_close_leaves_two_sessions :
  let key := Some "key" in
  admissible key restart_trace init = true ∧
  deepgramConnections (run key (take 5 restart_trace) init) !! "A"
    = Some 1%nat ∧
  deepgramConnections (run key (take 6 restart_trace) init) !! "A" = None ∧
  active_sessions (run key (take 6 restart_trace) init) "A" =
    [DgWs "A" "en-US" OPEN []] ∧
  active_sessions (run key restart_trace init) "A" =
    [DgWs "A" "en-US" OPEN []; DgWs "A" "en-US" CONNECTING []] ∧
  readyState <$> dgSockets (run key restart_trace init) !! 1%nat
    = Some OPEN ∧
  readyState <$> dgSockets (run key restart_trace init) !! 2%nat
    = Some CONNECTING ∧
  deepgramConnections (run key restart_trace init) !! "A" = Some 2%nat.
Proof. repeat split. Qed.

(** ** The reaper on reachable states *)

(** X8: between two events no match of the server is empty: [register] adds
    the caller right after creating a match and 'disconnect' deletes a
    match as soon as it empties it. So on a reachable state a run of the
    reaper finds nothing to delete. *)
Lemma reaper_idle_on_reachable apiKey now σ :
  reachable apiKey σ →
  matches (reaper now σ) = matches σ ∧
  matchMetadata (reaper now σ) = matchMetadata σ.
Proof.
  intros Hwf%reachable_wf.
  destruct (reaper_effect now σ) as (_ & Hkeep & _).
  assert (Hno : ∀ m, ¬ stale_empty now σ m).
  { intros m [Hm _].
    by destruct (wf_matches σ Hwf m [] Hm) as (_ & _ & Hne & _). }
  split; apply map_eq; intros m; by destruct (Hkeep m (Hno m)).
Qed.

(** * Further properties of the server *)

(** ** The outcomes of a well-formed register call *)

Lemma two_in_match_reachable : reachable (Some "key") two_in_match.
Proof. by apply run_reachable; [apply reachable_init|]. Qed.

(** On a well-formed registry a register call with both identifiers either
    is rejected for capacity, leaving the state [labelled], or goes through
    and leaves the state [registered]. *)
Lemma register_outcome now s uid mid σ u m :
  wf σ → truthy uid = Some u → truthy mid = Some m →
  let mt := default [] (matches σ !! m) in
  (∃ mt0, matches σ !! m = Some mt0 ∧ (2 ≤ length mt0)%nat ∧ (s ∉ mt0) ∧
     register now s uid mid σ =
       (labelled s u m σ,
        [Emit s (error "match_full"
                   "This match already has 2 participants")])) ∨
  (not_full s mt ∧
   ∃ md,
     match matches σ !! m with
     | Some _ => matchMetadata σ !! m = Some md
     | None => md = Metadata now now
     end ∧
     register now s uid mid σ =
       (registered now s u m mt md σ,
        [Emit s (joined m u
                   (participants (registered now s u m mt md σ)
                      (JsSet.add s mt))
                   (length (JsSet.add s mt)));
         Broadcast s m (user_joined u (length (JsSet.add s mt)))])).
Proof.
  intros Hwf Hu Hm mt. subst mt.
  destruct (matches σ !! m) as [mt|] eqn:Hmt; cbn [default from_option id].
  - destruct (wf_matches σ Hwf m mt Hmt) as (_ & _ & _ & _ & [md Hmd] & _).
    destruct (not_full_dec s mt) as [Hnf|[Hsz Hout]].
    + right. split; [done|]. exists md. split; [done|].
      rewrite (register_ok now s uid mid σ u m md); rewrite ?Hmt; done.
    + left. exists mt. repeat split; try done.
      by apply (register_full _ _ _ _ _ _ _ mt).
  - right. assert (Hnf : not_full s []) by (left; simpl; lia).
    split; [done|]. exists (Metadata now now). split; [done|].
    rewrite (register_ok now s uid mid σ u m (Metadata now now));
      rewrite ?Hmt; done.
Qed.

(** ** How one event changes the registry *)

(** The registry part of any enabled event is one of: a new socket, the
    label writes of a rejected register, a completed register, a
    disconnect, a run of the reaper, or no change to the sockets, the match
    table and the two indexes. *)
Lemma step_registry_cases apiKey now e σ :
  wf σ → enabled σ e = true →
  let σ' := fst (step apiKey now e σ) in
  (∃ s, sockets σ !! s = None ∧ σ' = fst (connection s σ)) ∨
  (∃ s u m, is_connected σ s = true ∧ u ≠ "" ∧ m ≠ "" ∧
     σ' = labelled s u m σ) ∨
  (∃ s u m md, is_connected σ s = true ∧ u ≠ "" ∧ m ≠ "" ∧
     not_full s (default [] (matches σ !! m)) ∧
     σ' = registered now s u m (default [] (matches σ !! m)) md σ) ∨
  (∃ s, e = Disconnect s ∧ σ' = fst (disconnect s σ)) ∨
  σ' = reaper now σ ∨
  (sockets σ' = sockets σ ∧ matches σ' = matches σ ∧
   userSockets σ' = userSockets σ ∧ socketToUser σ' = socketToUser σ).
Proof.
  intros Hwf Hen σ'. subst σ'.
  destruct e;
    try (match goal with
         | |- context [step _ _ ?e _] =>
             destruct (bridge_core apiKey now e σ I)
               as (Hs & Hm & Hus & Hsu & _)
         end; by do 5 right);
    cbn [step enabled] in *.
  - left. exists s. split; [|done]. by apply bool_decide_eq_true in Hen.
  - destruct (truthy uid) as [u|] eqn:Hu;
      [|rewrite register_invalid by (by left); by do 5 right].
    destruct (truthy mid) as [m|] eqn:Hm;
      [|rewrite register_invalid by (by right); by do 5 right].
    destruct (truthy_Some _ _ Hu) as [_ Hune].
    destruct (truthy_Some _ _ Hm) as [_ Hmne].
    destruct (register_outcome now s uid mid σ u m Hwf Hu Hm)
      as [(mt0 & _ & _ & _ & ->)|(Hnf & md & _ & ->)].
    + right; left. by exists s, u, m.
    + right; right; left. by exists s, u, m, md.
  - do 5 right. unfold initiate_call.
    destruct (live_target σ to); [|done].
    destruct (truthy (socket_matchId σ s)) as [m|]; [|done].
    by destruct (matchMetadata σ !! m).
  - do 5 right. unfold accept_call. by destruct (live_target σ to).
  - do 5 right. unfold reject_call. by destruct (live_target σ to).
  - by do 5 right.
  - do 5 right. unfold offer. by destruct (live_target σ to).
  - do 5 right. unfold answer. by destruct (live_target σ to).
  - do 5 right. unfold ice_candidate. by destruct (live_target σ to).
  - do 3 right; left. by exists s.
  - by do 4 right; left.
Qed.

Lemma alter_keeps_connected σ s f t :
  (∀ sk, connected (f sk) = connected sk) →
  is_connected (set_sockets (alter f s) σ) t = is_connected σ t.
Proof.
  intros Hf. unfold is_connected. st.
  destruct (decide (s = t)) as [<-|Hne].
  - rewrite lookup_alter_eq. destruct (sockets σ !! s); cbn; [apply Hf|done].
  - by rewrite lookup_alter_ne.
Qed.

(** Only its own 'disconnect' event ends a socket's connection. *)
Lemma step_keeps_connected apiKey now e σ t :
  wf σ → enabled σ e = true → is_connected σ t = true → e ≠ Disconnect t →
  is_connected (fst (step apiKey now e σ)) t = true.
Proof.
  intros Hwf Hen Ht Hne.
  destruct (step_registry_cases apiKey now e σ Hwf Hen)
    as [(s & Hs & ->)|[(s & u & m & _ & _ & _ & ->)|
        [(s & u & m & md & Hc & _ & _ & Hnf & ->)|
         [(s & -> & ->)|[->|(Hs & _)]]]]];
    unfold is_connected in *.
  - unfold connection. st. rewrite lookup_insert_ne; [done|].
    intros ->. by rewrite Hs in Ht.
  - st. destruct (decide (s = t)) as [<-|Hst].
    + rewrite lookup_alter_eq. by destruct (sockets σ !! s).
    + by rewrite lookup_alter_ne.
  - unfold registered. st. destruct (decide (s = t)) as [<-|Hst].
    + rewrite !lookup_alter_eq. by destruct (sockets σ !! s).
    + by rewrite !lookup_alter_ne.
  - rewrite disconnect_sockets, lookup_alter_ne; [done|congruence].
  - by destruct (reaper_effect now σ) as (_ & _ & ->).
  - by rewrite Hs.
Qed.

(** ** Rooms, labels and indexes are kept consistent *)

Lemma disconnect_matches_keep s σ room mt t :
  matches σ !! room = Some mt → t ∈ mt → t ≠ s →
  ∃ mt', matches (fst (disconnect s σ)) !! room = Some mt' ∧ t ∈ mt'.
Proof.
  intros Hmt Ht Hts.
  destruct (truthy (socket_userId σ s)) as [u|] eqn:Hu.
  - destruct (disconnect_registered s σ u Hu) as (_ & _ & H).
    destruct (truthy (socket_matchId σ s) ≫= _) as [[m mt0]|] eqn:Hb.
    + apply bind_match_Some in Hb as [_ Hm0]. destruct H as [_ H].
      destruct (decide (m = room)) as [->|Hne].
      * assert (mt0 = mt) as -> by congruence.
        assert (t ∈ JsSet.delete s mt) as Hin by (by apply elem_of_delete).
        destruct (decide (JsSet.delete s mt = [])) as [He|_].
        { rewrite He in Hin. by apply elem_of_nil in Hin. }
        destruct H as [-> _]. exists (JsSet.delete s mt).
        by rewrite lookup_insert_eq.
      * exists mt. split; [|done].
        destruct (decide (JsSet.delete s mt0 = [])); destruct H as [-> _].
        -- by rewrite lookup_delete_ne.
        -- by rewrite lookup_insert_ne.
    + destruct H as (_ & -> & _). by exists mt.
  - destruct (disconnect_unregistered s σ Hu) as (_ & -> & _). by exists mt.
Qed.

Lemma disconnect_matches_sub s σ m mt' :
  matches (fst (disconnect s σ)) !! m = Some mt' →
  ∃ mt, matches σ !! m = Some mt ∧ ∀ t, t ∈ mt' → t ∈ mt.
Proof.
  destruct (truthy (socket_userId σ s)) as [u|] eqn:Hu.
  - destruct (disconnect_registered s σ u Hu) as (_ & _ & H).
    destruct (truthy (socket_matchId σ s) ≫= _) as [[m0 mt0]|] eqn:Hb.
    + apply bind_match_Some in Hb as [_ Hm0]. destruct H as [_ H].
      destruct (decide (JsSet.delete s mt0 = [])); destruct H as [-> _].
      * destruct (decide (m0 = m)) as [->|Hne].
        -- by rewrite lookup_delete_eq.
        -- rewrite lookup_delete_ne by done. intros Hm. by exists mt'.
      * destruct (decide (m0 = m)) as [->|Hne].
        -- rewrite lookup_insert_eq. intros [= <-]. exists mt0.
           split; [done|]. by intros t [_ Ht]%elem_of_delete.
        -- rewrite lookup_insert_ne by done. intros Hm. by exists mt'.
    + destruct H as (_ & -> & _). intros Hm. by exists mt'.
  - destruct (disconnect_unregistered s σ Hu) as (_ & -> & _).
    intros Hm. by exists mt'.
Qed.

Lemma disconnect_indexes s σ :
  (∀ u t, userSockets (fst (disconnect s σ)) !! u = Some t →
          userSockets σ !! u = Some t) ∧
  (∀ t, t ≠ s →
        socketToUser (fst (disconnect s σ)) !! t = socketToUser σ !! t) ∧
  (truthy (socket_userId σ s) ≠ None →
   socketToUser (fst (disconnect s σ)) !! s = None) ∧
  (truthy (socket_userId σ s) = None →
   socketToUser (fst (disconnect s σ)) = socketToUser σ).
Proof.
  destruct (truthy (socket_userId σ s)) as [u|] eqn:Hu.
  - destruct (disconnect_registered s σ u Hu) as (-> & -> & _).
    split; [intros u' t Hl; by apply lookup_delete_Some in Hl as [_ ?]|].
    split; [intros t Hts; by rewrite lookup_delete_ne|].
    split; [intros _; by rewrite lookup_delete_eq|done].
  - destruct (disconnect_unregistered s σ Hu) as (_ & _ & _ & -> & ->).
    done.
Qed.

Lemma rooms_ok_step apiKey now e σ :
  wf σ → enabled σ e = true → rooms_ok σ →
  rooms_ok (fst (step apiKey now e σ)).
Proof.
  intros Hwf Hen Hok.
  destruct (step_registry_cases apiKey now e σ Hwf Hen)
    as [(s & Hs & ->)|[(s & u & m & _ & _ & _ & ->)|
        [(s & u & m & md & Hc & _ & _ & Hnf & ->)|
         [(s & _ & ->)|[->|(Hs & Hm & _)]]]]];
    intros t sk room.
  - unfold connection. st. destruct (decide (s = t)) as [->|Hne].
    + rewrite lookup_insert_eq. intros [= <-]. cbn.
      intros ->%elem_of_singleton. by left.
    + rewrite lookup_insert_ne by done. apply Hok.
  - st. destruct (decide (s = t)) as [->|Hne].
    + rewrite lookup_alter_eq.
      destruct (sockets σ !! t) as [sk0|] eqn:Ht; [|done].
      intros [= <-]. cbn. by apply Hok.
    + rewrite lookup_alter_ne by done. apply Hok.
  - unfold registered. st.
    set (mt := default [] (matches σ !! m)) in *.
    assert (Hkeep : ∀ x room' mt0, matches σ !! room' = Some mt0 → x ∈ mt0 →
              ∃ mt', <[m:=JsSet.add s mt]> (matches σ) !! room' = Some mt' ∧
                     x ∈ mt').
    { intros x room' mt0 Hm0 Hx. destruct (decide (m = room')) as [->|Hne].
      - exists (JsSet.add s mt). rewrite lookup_insert_eq. split; [done|].
        apply elem_of_add. right. subst mt. by rewrite Hm0.
      - exists mt0. by rewrite lookup_insert_ne. }
    destruct (decide (s = t)) as [->|Hne].
    + rewrite !lookup_alter_eq.
      destruct (sockets σ !! t) as [sk0|] eqn:Ht; [|done].
      intros [= <-]. cbn. intros [->%elem_of_singleton|Hr]%elem_of_union.
      * right. exists (JsSet.add t mt). rewrite lookup_insert_eq.
        split; [done|]. apply elem_of_add. by left.
      * destruct (Hok t sk0 room Ht Hr) as [->|(mt0 & Hm0 & Hin)];
          [by left|right]. by apply (Hkeep t room mt0).
    + rewrite !lookup_alter_ne by done. intros Ht Hr.
      destruct (Hok t sk room Ht Hr) as [->|(mt0 & Hm0 & Hin)];
        [by left|right]. by apply (Hkeep t room mt0).
  - rewrite disconnect_sockets. destruct (decide (s = t)) as [->|Hne].
    + rewrite lookup_alter_eq.
      destruct (sockets σ !! t) as [sk0|]; [|done].
      intros [= <-]. cbn. by intros ?%elem_of_empty.
    + rewrite lookup_alter_ne by done. intros Ht Hr.
      destruct (Hok t sk room Ht Hr) as [->|(mt0 & Hm0 & Hin)];
        [by left|right]. by apply (disconnect_matches_keep s σ room mt0).
  - destruct (reaper_effect now σ) as (Hdel & Hkeep & ->). intros Ht Hr.
    destruct (Hok t sk room Ht Hr) as [->|(mt0 & Hm0 & Hin)];
      [by left|right]. exists mt0. split; [|done].
    destruct (Hkeep room) as [-> _]; [|done].
    intros [Hempty _]. rewrite Hm0 in Hempty. injection Hempty as ->.
    by apply elem_of_nil in Hin.
  - rewrite Hs, Hm. apply Hok.
Qed.

Lemma members_labelled_step apiKey now e σ :
  wf σ → enabled σ e = true → members_labelled σ →
  members_labelled (fst (step apiKey now e σ)).
Proof.
  intros Hwf Hen Hok.
  destruct (step_registry_cases apiKey now e σ Hwf Hen)
    as [(s & Hs & ->)|[(s & u & m & _ & _ & _ & ->)|
        [(s & u & m & md & Hc & _ & _ & Hnf & ->)|
         [(s & _ & ->)|[->|(Hs & Hm & _)]]]]];
    intros m' mt' t.
  - unfold connection. st. intros Hm' Ht.
    destruct (Hok m' mt' t Hm' Ht) as (sk & u & Hsk & Hu).
    exists sk, u. split; [|done].
    rewrite lookup_insert_ne; [done|]. intros ->. congruence.
  - st. intros Hm' Ht.
    destruct (Hok m' mt' t Hm' Ht) as (sk & u' & Hsk & Hu).
    destruct (decide (s = t)) as [->|Hne].
    + exists (set_labels u m sk), u. by rewrite lookup_alter_eq, Hsk.
    + exists sk, u'. by rewrite lookup_alter_ne.
  - unfold registered. st.
    apply is_connected_Some in Hc as (sk0 & Hs0 & _).
    assert (Hold : ∀ mt0, matches σ !! m' = Some mt0 → t ∈ mt0 →
              ∃ sk u0,
                alter (join m) s (alter (set_labels u m) s (sockets σ)) !! t
                  = Some sk ∧ userId sk = Some u0).
    { intros mt0 Hm0 Ht.
      destruct (Hok m' mt0 t Hm0 Ht) as (sk & u' & Hsk & Hu).
      destruct (decide (s = t)) as [->|Hne].
      - exists (join m (set_labels u m sk)), u.
        by rewrite !lookup_alter_eq, Hsk.
      - exists sk, u'. by rewrite !lookup_alter_ne. }
    destruct (decide (m = m')) as [<-|Hne].
    + rewrite lookup_insert_eq. intros [= <-] [->|Ht]%elem_of_add.
      * exists (join m (set_labels u m sk0)), u.
        by rewrite !lookup_alter_eq, Hs0.
      * destruct (matches σ !! m) as [mt0|] eqn:Hm0;
          cbn [default from_option id] in Ht;
          [by apply (Hold mt0)|by apply elem_of_nil in Ht].
    + rewrite lookup_insert_ne by done. apply Hold.
  - intros Hm' Ht.
    destruct (disconnect_matches_sub s σ m' mt' Hm') as (mt & Hm0 & Hsub).
    destruct (Hok m' mt t Hm0 (Hsub t Ht)) as (sk & u & Hsk & Hu).
    rewrite disconnect_sockets. destruct (decide (s = t)) as [->|Hne].
    + exists (closed_socket sk), u. by rewrite lookup_alter_eq, Hsk.
    + exists sk, u. by rewrite lookup_alter_ne.
  - destruct (reaper_effect now σ) as (Hdel & Hkeep & ->). intros Hm' Ht.
    destruct (stale_empty_dec now σ m') as [Hst|Hst].
    + destruct (Hdel m' Hst) as [Hn _]. congruence.
    + destruct (Hkeep m' Hst) as [Hsame _]. rewrite Hsame in Hm'.
      by apply (Hok m' mt' t).
  - rewrite Hs, Hm. apply Hok.
Qed.

Lemma index_ok_register σ σ' s u f :
  is_connected σ s = true → u ≠ "" →
  sockets σ' = alter f s (sockets σ) →
  (∀ sk, connected (f sk) = connected sk ∧ userId (f sk) = Some u) →
  userSockets σ' = <[u:=s]> (userSockets σ) →
  socketToUser σ' = <[s:=u]> (socketToUser σ) →
  index_ok σ → index_ok σ'.
Proof.
  intros (sk0 & Hs0 & Hc0)%is_connected_Some Hu Hs Hf Hus Hsu [Ha Hb].
  destruct (Hf sk0) as [Hfc Hfu]. split.
  - intros t u'. rewrite Hsu, Hs. destruct (decide (s = t)) as [<-|Hne].
    + rewrite lookup_insert_eq, lookup_alter_eq, Hs0. cbn. split.
      * intros [= <-]. exists (f sk0). by rewrite Hfc.
      * intros (sk & [= <-] & _ & Hu'). congruence.
    + rewrite lookup_insert_ne, lookup_alter_ne by done. apply Ha.
  - intros u' t. rewrite Hus, Hs. destruct (decide (u = u')) as [<-|Hne].
    + rewrite lookup_insert_eq. intros [= <-]. split; [done|].
      exists (f sk0). rewrite lookup_alter_eq, Hs0. split; [done|].
      by rewrite Hfu.
    + rewrite lookup_insert_ne by done. intros Hl.
      destruct (Hb u' t Hl) as (Hne' & sk & Hsk & Hlab). split; [done|].
      destruct (decide (s = t)) as [<-|Hst].
      * exists (f sk). rewrite lookup_alter_eq, Hsk. split; [done|].
        destruct (Hf sk) as [_ ->]. done.
      * exists sk. by rewrite lookup_alter_ne.
Qed.

Lemma index_ok_step apiKey now e σ :
  wf σ → enabled σ e = true → index_ok σ →
  index_ok (fst (step apiKey now e σ)).
Proof.
  intros Hwf Hen Hok.
  destruct (step_registry_cases apiKey now e σ Hwf Hen)
    as [(s & Hs & ->)|[(s & u & m & Hc & Hu & _ & ->)|
        [(s & u & m & md & Hc & Hu & _ & Hnf & ->)|
         [(s & _ & ->)|[->|(Hs & _ & Hus & Hsu)]]]]].
  - destruct Hok as [Ha Hb]. unfold connection. split; st.
    + intros t u. destruct (decide (s = t)) as [<-|Hne].
      * rewrite lookup_insert_eq. split.
        -- intros (sk & Hsk & _)%Ha. congruence.
        -- intros (sk & [= <-] & _ & Hu). done.
      * rewrite lookup_insert_ne by done. apply Ha.
    + intros u t Hl. destruct (Hb u t Hl) as (Hne & sk & Hsk & Hlab).
      split; [done|]. exists sk. split; [|done].
      rewrite lookup_insert_ne; [done|]. intros ->. congruence.
  - apply (index_ok_register σ _ s u (set_labels u m)); done.
  - apply (index_ok_register σ _ s u (λ sk, join m (set_labels u m sk)));
      try done.
    unfold registered. st. apply map_eq. intros t.
    destruct (decide (s = t)) as [<-|Hne].
    + rewrite !lookup_alter_eq. by destruct (sockets σ !! s).
    + by rewrite !lookup_alter_ne.
  - destruct Hok as [Ha Hb].
    destruct (disconnect_indexes s σ) as (Hus & Hsu & Hreg & Hunreg).
    split.
    + intros t u. rewrite disconnect_sockets.
      destruct (decide (s = t)) as [<-|Hne].
      * rewrite lookup_alter_eq. split.
        -- intros Hl. exfalso.
           destruct (truthy (socket_userId σ s)) as [u0|] eqn:Hlab.
           ++ rewrite Hreg in Hl; done.
           ++ rewrite (Hunreg eq_refl) in Hl.
              apply Ha in Hl as (sk & Hsk & _ & Hu).
              destruct (wf_labels σ Hwf s sk Hsk) as [Hne _].
              unfold socket_userId in Hlab. rewrite Hsk in Hlab.
              cbn [mbind option_bind] in Hlab. rewrite Hu in Hlab.
              rewrite truthy_of_Some in Hlab; [done|congruence].
        -- destruct (sockets σ !! s) as [sk0|]; cbn;
             [|by intros (? & [=] & _)].
           intros (sk & [= <-] & Hc & _). discriminate Hc.
      * rewrite Hsu, lookup_alter_ne by done. apply Ha.
    + intros u t Hl%Hus. destruct (Hb u t Hl) as (Hne & sk & Hsk & Hlab).
      split; [done|]. rewrite disconnect_sockets.
      destruct (decide (s = t)) as [<-|Hst].
      * exists (closed_socket sk). by rewrite lookup_alter_eq, Hsk.
      * exists sk. by rewrite lookup_alter_ne.
  - destruct (reap_fold_rest now (map_to_list (matchMetadata σ)) σ)
      as (Hs & Hus & Hsu & _).
    destruct Hok as [Ha Hb]. unfold reaper. split.
    + intros t u. rewrite Hs, Hsu. apply Ha.
    + intros u t. rewrite Hs, Hus. apply Hb.
  - destruct Hok as [Ha Hb]. split.
    + intros t u. rewrite Hs, Hsu. apply Ha.
    + intros u t. rewrite Hs, Hus. apply Hb.
Qed.

Lemma registry_ok_init : registry_ok init.
Proof.
  repeat split; cbn; intros *; rewrite ?lookup_empty; try done.
  by intros (? & ? & _).
Qed.

Lemma reachable_registry_ok apiKey σ : reachable apiKey σ → registry_ok σ.
Proof.
  induction 1 as [|σ now e Hr (Hro & Hml & Hix) Hen];
    [apply registry_ok_init|].
  pose proof (reachable_wf apiKey σ Hr) as Hwf.
  split; [by apply rooms_ok_step|].
  split; [by apply members_labelled_step|by apply index_ok_step].
Qed.

(** ** The registry and the bridge do not interfere *)

Lemma register_frame now s uid mid σ :
  deepgramConnections (fst (register now s uid mid σ)) = deepgramConnections σ ∧
  dgSockets (fst (register now s uid mid σ)) = dgSockets σ.
Proof.
  unfold register.
  destruct (truthy uid) as [u|]; [|done].
  destruct (truthy mid) as [m|]; [|done]. st.
  destruct (matches σ !! m) as [mt|]; st.
  - destruct (_ && _); [done|]. st.
    by destruct (matchMetadata σ !! m).
  - destruct (_ && _); [done|]. st.
    by destruct (<[m:=Metadata now now]> (matchMetadata σ) !! m).
Qed.

Lemma disconnect_frame s σ :
  deepgramConnections (fst (disconnect s σ)) =
    deepgramConnections (close_existing s σ) ∧
  dgSockets (fst (disconnect s σ)) = dgSockets (close_existing s σ).
Proof.
  unfold disconnect, leave_match.
  set (σ1 := close_existing s (set_sockets (alter closed_socket s) σ)).
  assert (deepgramConnections σ1 = deepgramConnections (close_existing s σ) ∧
          dgSockets σ1 = dgSockets (close_existing s σ)) as [<- <-].
  { subst σ1. unfold close_existing. st.
    by destruct (deepgramConnections σ !! s). }
  destruct (truthy (socket_userId σ1 s)); [|done].
  destruct (truthy (socket_matchId _ s)); [|done].
  st. destruct (matches σ1 !! _); [|done].
  by destruct (JsSet.size _ =? 0)%nat.
Qed.

Lemma close_existing_sessions s σ :
  deepgramConnections (close_existing s σ) = delete s (deepgramConnections σ) ∧
  length (dgSockets (close_existing s σ)) = length (dgSockets σ) ∧
  ∀ w ws, dgSockets σ !! w = Some ws →
    ∃ ws', dgSockets (close_existing s σ) !! w = Some ws' ∧
           owner ws' = owner ws ∧
           (readyState ws ≠ CLOSED → readyState ws' ≠ CLOSED).
Proof.
  unfold close_existing.
  destruct (deepgramConnections σ !! s) as [w0|] eqn:Hs; st.
  - split; [done|]. split; [apply length_alter|].
    intros w ws Hw. destruct (decide (w0 = w)) as [->|Hne].
    + exists (ws_close ws). rewrite list_lookup_alter_eq, Hw.
      split; [done|]. unfold ws_close.
      destruct (readyState ws) eqn:Hr; cbn; by rewrite ?Hr.
    + exists ws. by rewrite list_lookup_alter_ne.
  - split; [by rewrite delete_id|]. split; [done|].
    intros w ws Hw. by exists ws.
Qed.

Lemma sessions_ok_mono σ σ' :
  sessions_ok σ →
  (∀ s w, deepgramConnections σ' !! s = Some w →
          deepgramConnections σ !! s = Some w) →
  (∀ s w ws, deepgramConnections σ' !! s = Some w →
     dgSockets σ !! w = Some ws → owner ws = s → readyState ws ≠ CLOSED →
     ∃ ws', dgSockets σ' !! w = Some ws' ∧ owner ws' = s ∧
            readyState ws' ≠ CLOSED) →
  (∀ s w, deepgramConnections σ' !! s = Some w →
          is_connected σ s = true → is_connected σ' s = true) →
  sessions_ok σ'.
Proof.
  intros Hok Htab Hstore Hcon s w Hs.
  destruct (Hok s w (Htab s w Hs)) as (ws & Hw & Ho & Hr & Hc).
  destruct (Hstore s w ws Hs Hw Ho Hr) as (ws' & Hw' & Ho' & Hr').
  exists ws'. repeat split; try done. by apply (Hcon s w).
Qed.

Lemma sessions_ok_step apiKey now e σ :
  wf σ → enabled σ e = true → sessions_ok σ →
  sessions_ok (fst (step apiKey now e σ)).
Proof.
  intros Hwf Hen Hok.
  assert (Hcon : ∀ t, e ≠ Disconnect t → is_connected σ t = true →
            is_connected (fst (step apiKey now e σ)) t = true).
  { intros t Hne Ht. by apply step_keeps_connected. }
  assert (Hsame : deepgramConnections (fst (step apiKey now e σ)) =
                    deepgramConnections σ →
                  dgSockets (fst (step apiKey now e σ)) = dgSockets σ →
                  (∀ t, e ≠ Disconnect t) →
                  sessions_ok (fst (step apiKey now e σ))).
  { intros Ht Hd Hne. apply (sessions_ok_mono σ); [done|..].
    - intros s w. by rewrite Ht.
    - intros s w ws _ Hw Ho Hr. exists ws. by rewrite Hd.
    - intros s w _. by apply Hcon. }
  destruct e; cbn [step] in *.
  - by apply Hsame.
  - destruct (register_frame now s uid mid σ). by apply Hsame.
  - apply Hsame; [..|done]; unfold initiate_call;
      destruct (live_target σ to); try done;
      destruct (truthy (socket_matchId σ s)) as [m|]; try done;
      by destruct (matchMetadata σ !! m).
  - apply Hsame; [..|done]; unfold accept_call;
      by destruct (live_target σ to).
  - apply Hsame; [..|done]; unfold reject_call;
      by destruct (live_target σ to).
  - by apply Hsame.
  - apply Hsame; [..|done]; unfold offer; by destruct (live_target σ to).
  - apply Hsame; [..|done]; unfold answer; by destruct (live_target σ to).
  - apply Hsame; [..|done]; unfold ice_candidate;
      by destruct (live_target σ to).
  - (* transcription:start *)
    unfold transcription_start in *.
    destruct (truthy apiKey) as [key|]; [|by apply Hsame].
    destruct (close_existing_sessions s σ) as (Htab & Hlen & Hst).
    cbv zeta in *. destruct (websocket_throws key _).
    { cbn [fst] in *. apply (sessions_ok_mono σ); [done|..].
      - intros t w. rewrite Htab. by intros [_ ?]%lookup_delete_Some.
      - intros t w ws _ Hw Ho Hr.
        destruct (Hst w ws Hw) as (ws' & ? & ? & ?).
        exists ws'. split; [done|]. split; [congruence|auto].
      - intros t w _. by apply Hcon. }
    cbn [fst] in *. intros t w. st. rewrite Htab.
    destruct (decide (s = t)) as [<-|Hne].
    + rewrite lookup_insert_eq. intros [= <-]. eexists.
      split; [by rewrite lookup_app_r, Nat.sub_diag by lia|].
      split; [done|]. split; [done|]. by apply (Hcon s).
    + rewrite lookup_insert_ne, lookup_delete_ne by done. intros Ht.
      destruct (Hok t w Ht) as (ws & Hw & Ho & Hr & Hc).
      destruct (Hst w ws Hw) as (ws' & Hw' & Ho' & Hr').
      exists ws'. split; [by apply lookup_app_l_Some|].
      split; [congruence|]. split; [auto|]. by apply (Hcon t).
  - (* audio-chunk *)
    apply (sessions_ok_mono σ); [done|..].
    + intros t w. unfold audio_chunk.
      destruct (deepgramConnections σ !! s); [|done].
      destruct (dgSockets σ !! _) as [ws0|]; [|done].
      by destruct (readyState ws0).
    + intros t w ws _ Hw Ho Hr. unfold audio_chunk.
      destruct (deepgramConnections σ !! s) as [w0|]; [|by exists ws].
      destruct (dgSockets σ !! w0) as [ws0|] eqn:Hw0; [|by exists ws].
      destruct (readyState ws0); try by exists ws.
      st. destruct (decide (w0 = w)) as [->|Hne].
      * exists (ws_send data ws). by rewrite list_lookup_alter_eq, Hw.
      * exists ws. by rewrite list_lookup_alter_ne.
    + intros t w _. by apply Hcon.
  - (* transcription:stop *)
    destruct (close_existing_sessions s σ) as (Htab & Hlen & Hst).
    unfold transcription_stop. cbn [fst] in *.
    apply (sessions_ok_mono σ); [done|..].
    + intros t w. rewrite Htab. by intros [_ ?]%lookup_delete_Some.
    + intros t w ws _ Hw Ho Hr. destruct (Hst w ws Hw) as (ws' & ? & ? & ?).
      exists ws'. split; [done|]. split; [congruence|auto].
    + intros t w _. by apply Hcon.
  - (* disconnect *)
    destruct (disconnect_frame s σ) as [Htab' Hd'].
    destruct (close_existing_sessions s σ) as (Htab & Hlen & Hst).
    apply (sessions_ok_mono σ); [done|..].
    + intros t w. rewrite Htab', Htab. by intros [_ ?]%lookup_delete_Some.
    + intros t w ws _ Hw Ho Hr. rewrite Hd'.
      destruct (Hst w ws Hw) as (ws' & ? & ? & ?).
      exists ws'. split; [done|]. split; [congruence|auto].
    + intros t w. rewrite Htab', Htab.
      intros [Hne _]%lookup_delete_Some. apply Hcon. congruence.
  - (* provider open *)
    apply (sessions_ok_mono σ); [done|..]; unfold dg_open.
    + intros t w'. by destruct (dgSockets σ !! w).
    + intros t w' ws _ Hw Ho Hr.
      destruct (dgSockets σ !! w) as [ws0|] eqn:Hw0; [|by exists ws].
      st. destruct (decide (w = w')) as [->|Hne].
      * exists (ws_set_ready OPEN ws).
        by rewrite list_lookup_alter_eq, Hw.
      * exists ws. by rewrite list_lookup_alter_ne.
    + intros t w' _. by apply Hcon.
  - (* provider message *)
    apply Hsame; [..|done]; unfold dg_message;
      destruct (dgSockets σ !! w); try done; by destruct (truthy transcript).
  - (* provider close *)
    unfold dg_close in *.
    destruct (dgSockets σ !! w) as [ws0|] eqn:Hw0; [|by apply Hsame].
    cbn [fst] in *. intros t w'. st.
    intros [Hne Ht]%lookup_delete_Some.
    destruct (Hok t w' Ht) as (ws & Hw & Ho & Hr & Hc).
    assert (w ≠ w') as Hww by (intros ->; congruence).
    exists ws. rewrite list_lookup_alter_ne by done.
    repeat split; try done; by apply (Hcon t).
  - (* provider error *)
    apply (sessions_ok_mono σ); [done|..]; unfold dg_error.
    + intros t w'. by destruct (dgSockets σ !! w).
    + intros t w' ws _ Hw Ho Hr.
      destruct (dgSockets σ !! w) as [ws0|] eqn:Hw0; [|by exists ws].
      st. destruct (decide (w = w')) as [->|Hne].
      * exists (ws_set_ready CLOSING ws).
        by rewrite list_lookup_alter_eq, Hw.
      * exists ws. by rewrite list_lookup_alter_ne.
    + intros t w' _. by apply Hcon.
  - (* reaper *)
    destruct (reap_fold_rest now (map_to_list (matchMetadata σ)) σ)
      as (_ & _ & _ & Ht & Hd).
    by apply Hsame.
Qed.

Lemma reachable_sessions_ok apiKey σ : reachable apiKey σ → sessions_ok σ.
Proof.
  induction 1 as [|σ now e Hr IH Hen].
  - intros s w Hs. cbn in Hs. by rewrite lookup_empty in Hs.
  - apply sessions_ok_step; [by apply (reachable_wf apiKey)|done|done].
Qed.

(** ** Registration: edge cases and notifications *)

(** X1: a register call in which userId or matchId is missing or empty is
    answered with exactly one validation error to the caller; nobody else
    receives anything and the state, the caller's labels included, is
    untouched. *)
Theorem register_rejects_missing_ids now s uid mid σ :
  truthy uid = None ∨ truthy mid = None →
  fst (register now s uid mid σ) = σ ∧
  inbox σ s (snd (register now s uid mid σ)) =
    [error "validation" "Missing userId or matchId"] ∧
  ∀ t, t ≠ s → inbox σ t (snd (register now s uid mid σ)) = [].
Proof.
  intros H. rewrite (register_invalid now s uid mid σ H). cbn [fst snd].
  split; [done|]. split; [apply inbox_emit_self|].
  intros t Hts. by apply inbox_emit_other.
Qed.

Lemma register_rejects_missing_ids_witness :
  fst (register 9 "A" (Some "") (Some "m1") two_in_match) = two_in_match ∧
  fst (register 9 "A" (Some "u1") None two_in_match) = two_in_match.
Proof.
  split.
  - apply (register_rejects_missing_ids 9 "A" (Some "") (Some "m1")
             two_in_match). by left.
  - apply (register_rejects_missing_ids 9 "A" (Some "u1") None
             two_in_match). by right.
Defined.

(** X2: registering into a match that does not exist always succeeds: the
    match is created with the caller as its only member and with metadata
    whose [lastActivity] is the time of the call, the user index points at
    the caller, the caller is in the room of the match, and the
    acknowledgment lists exactly the caller's userId with a count of 1. *)
Theorem register_creates_match now s u m σ sk :
  sockets σ !! s = Some sk → u ≠ "" → m ≠ "" → matches σ !! m = None →
  let r := register now s (Some u) (Some m) σ in
  snd r = [Emit s (joined m u [Some u] 1);
           Broadcast s m (user_joined u 1)] ∧
  matches (fst r) !! m = Some [s] ∧
  lastActivity <$> matchMetadata (fst r) !! m = Some now ∧
  userSockets (fst r) !! u = Some s ∧
  socket_matchId (fst r) s = Some m ∧
  in_room (fst r) s m = true.
Proof.
  intros Hs Hu Hm Hnone r. subst r.
  assert (Hnf : not_full s (default [] (matches σ !! m))).
  { rewrite Hnone. left. simpl. lia. }
  rewrite (register_ok now s (Some u) (Some m) σ u m (Metadata now now));
    try done; try (by apply truthy_of_Some); [|by rewrite Hnone].
  rewrite Hnone. cbn [default from_option id fst snd].
  rewrite !(add_fresh s []) by (by intros ?%elem_of_nil).
  unfold participants. cbn [app fmap list_fmap length].
  rewrite socket_userId_registered, decide_True, Hs by done.
  unfold socket_matchId, in_room, registered. st.
  rewrite !lookup_insert_eq, !lookup_alter_eq, Hs. cbn.
  repeat split; try done.
  apply bool_decide_eq_true. apply elem_of_union_l. by apply elem_of_singleton.
Qed.

Lemma register_creates_match_witness :
  let r := register 9 "C" (Some "u3") (Some "m2") three_sockets in
  snd r = [Emit "C" (joined "m2" "u3" [Some "u3"] 1);
           Broadcast "C" "m2" (user_joined "u3" 1)] ∧
  matches (fst r) !! "m2" = Some ["C"].
Proof.
  destruct (register_creates_match 9 "C" "u3" "m2" three_sockets
              (Socket None None true {["C"]}) eq_refl)
    as (Hout & Hm & _); [done|done|reflexivity|].
  split; [exact Hout|exact Hm].
Defined.

(** X3: when a register call goes through, the caller receives the
    "joined" acknowledgment and nothing else, and every other member of the
    match that is connected receives exactly one user-joined event, with
    the caller's userId and the new participant count. *)
Theorem register_notifies_members apiKey now s uid mid σ m u ps n rest :
  reachable apiKey σ →
  snd (register now s uid mid σ) = Emit s (joined m u ps n) :: rest →
  inbox (fst (register now s uid mid σ)) s (snd (register now s uid mid σ))
    = [joined m u ps n] ∧
  ∀ mt t, matches σ !! m = Some mt → t ∈ mt → t ≠ s →
    is_connected σ t = true →
    inbox (fst (register now s uid mid σ)) t
      (snd (register now s uid mid σ)) = [user_joined u n].
Proof.
  intros Hwf%reachable_wf Hout.
  destruct (register_joined_inv _ _ _ _ _ _ _ _ _ _ Hout)
    as (Hu & Hm & Hnf & md & Hmd).
  pose proof (register_ok now s uid mid σ u m md Hu Hm Hnf Hmd) as H1.
  cbv zeta in H1. rewrite H1 in *. cbn [fst snd] in *.
  injection Hout as <- <- _. split.
  - unfold inbox. cbn [omap list_omap receives].
    by rewrite !decide_True.
  - intros mt t Hmt Ht Hts Hcon. unfold inbox.
    cbn [omap list_omap receives]. rewrite !decide_False by congruence.
    destruct (wf_matches σ Hwf m mt Hmt) as (_ & _ & _ & _ & _ & Hmem).
    destruct (Hmem t Ht) as (sk & Hsk & Hroom).
    unfold is_connected in Hcon. rewrite Hsk in Hcon.
    unfold in_room, registered. st.
    rewrite !lookup_alter_ne, Hsk by congruence.
    by rewrite bool_decide_eq_true_2 by auto.
Qed.

Lemma register_notifies_members_witness :
  let σ := run (Some "key")
             [(1, Connection "A"); (2, Connection "B");
              (3, Register "A" (Some "u1") (Some "m1"))] init in
  let r := register 4 "B" (Some "u2") (Some "m1") σ in
  inbox (fst r) "B" (snd r) = [joined "m1" "u2" [Some "u1"; Some "u2"] 2] ∧
  inbox (fst r) "A" (snd r) = [user_joined "u2" 2].
Proof.
  assert (Hr : reachable (Some "key")
                 (run (Some "key")
                    [(1, Connection "A"); (2, Connection "B");
                     (3, Register "A" (Some "u1") (Some "m1"))] init))
    by (by apply run_reachable; [apply reachable_init|]).
  destruct (register_notifies_members (Some "key") 4 "B" (Some "u2")
              (Some "m1") _ "m1" "u2" [Some "u1"; Some "u2"] 2
              [Broadcast "B" "m1" (user_joined "u2" 2)] Hr eq_refl)
    as [Hb Ha].
  split; [exact Hb|].
  apply (Ha ["A"]); [reflexivity| |done|reflexivity].
  apply elem_of_cons. by left.
Defined.

(** X4: a room broadcast only reaches members: in every reachable state, a
    socket that receives what another socket broadcasts to a room is a
    member of the match of that name, unless the room name is its own
    socket id. *)
Theorem broadcast_reaches_members_only apiKey σ s t room msg :
  reachable apiKey σ →
  receives σ t (Broadcast s room msg) = Some msg →
  t ≠ s ∧ (room = t ∨ ∃ mt, matches σ !! room = Some mt ∧ t ∈ mt).
Proof.
  intros (Hrooms & _)%reachable_registry_ok. cbn [receives].
  destruct (decide (s = t)) as [->|Hne]; [done|].
  unfold in_room. destruct (sockets σ !! t) as [sk|] eqn:Ht; [|done].
  destruct (bool_decide (room ∈ rooms sk)) eqn:Hr; [|done].
  intros _. apply bool_decide_eq_true in Hr.
  split; [congruence|]. by apply (Hrooms t sk room).
Qed.

Lemma broadcast_reaches_members_only_witness :
  "B" ≠ "A" ∧
  ("m1" = "B" ∨ ∃ mt, matches two_in_match !! "m1" = Some mt ∧ "B" ∈ mt).
Proof.
  apply (broadcast_reaches_members_only (Some "key") two_in_match "A" "B"
           "m1" (user_left "u1") two_in_match_reachable).
  reflexivity.
Defined.

(** X5: the last registration wins the userId, whatever its outcome: after
    a register call with both identifiers by a connected socket, accepted
    or rejected for capacity, the user index routes that userId to the
    caller, so that an offer addressed to it is delivered to the caller. *)
Theorem register_takes_over_user apiKey now s uid mid σ u m :
  reachable apiKey σ → is_connected σ s = true →
  truthy uid = Some u → truthy mid = Some m →
  let σ' := fst (register now s uid mid σ) in
  live_target σ' (Some u) = Some s ∧
  ∀ r payload,
    offer r payload (Some u) σ' =
      (σ', [Emit s (offer_to payload (socket_userId σ' r))]).
Proof.
  intros Hwf%reachable_wf Hc Hu Hm σ'.
  assert (Hlive : live_target σ' (Some u) = Some s).
  { subst σ'. apply is_connected_Some in Hc as (sk & Hs & Hc).
    unfold live_target, is_connected. cbn [mbind option_bind].
    destruct (register_outcome now s uid mid σ u m Hwf Hu Hm)
      as [(mt0 & _ & _ & _ & ->)|(Hnf & md & _ & ->)];
      unfold registered; st.
    - rewrite lookup_insert_eq, lookup_alter_eq, Hs. cbn. by rewrite Hc.
    - rewrite lookup_insert_eq, !lookup_alter_eq, Hs. cbn. by rewrite Hc. }
  split; [done|]. intros r payload. unfold offer. by rewrite Hlive.
Qed.

Lemma register_takes_over_user_witness :
  let σ' := fst (register 9 "C" (Some "u1") (Some "m1") three_sockets) in
  live_target three_sockets (Some "u1") = Some "A" ∧
  snd (register 9 "C" (Some "u1") (Some "m1") three_sockets) =
    [Emit "C" (error "match_full"
                 "This match already has 2 participants")] ∧
  live_target σ' (Some "u1") = Some "C".
Proof.
  destruct (register_takes_over_user (Some "key") 9 "C" (Some "u1")
              (Some "m1") three_sockets "u1" "m1" three_sockets_reachable
              eq_refl eq_refl eq_refl) as [Hl _].
  split; [reflexivity|]. split; [reflexivity|exact Hl].
Defined.

(** ** Invariants of the tables *)

(** X6: in every reachable state [socketToUser] is exactly the map from the
    connected sockets that carry a userId to that userId (an entry is
    written together with the label and deleted on disconnect), and every
    [userSockets] entry has a non-empty key and points at a socket object
    that carries a userId; that socket need not be connected any more. *)
Theorem indexes_mirror_labels apiKey σ :
  reachable apiKey σ →
  (∀ s u, socketToUser σ !! s = Some u ↔
          is_connected σ s = true ∧ socket_userId σ s = Some u) ∧
  (∀ u t, userSockets σ !! u = Some t →
          u ≠ "" ∧ is_Some (socket_userId σ t)).
Proof.
  intros (_ & _ & Ha & Hb)%reachable_registry_ok. split.
  - intros s u. rewrite Ha. unfold is_connected, socket_userId. split.
    + intros (sk & -> & Hc & Hu). done.
    + destruct (sockets σ !! s) as [sk|]; [|by intros [? _]].
      intros [Hc Hu]. by exists sk.
  - intros u t Hl. destruct (Hb u t Hl) as (Hne & sk & Hsk & Hlab).
    split; [done|]. unfold socket_userId. by rewrite Hsk.
Qed.

Lemma indexes_mirror_labels_witness :
  socketToUser two_in_match !! "A" = Some "u1" ↔
  is_connected two_in_match "A" = true ∧
  socket_userId two_in_match "A" = Some "u1".
Proof.
  apply (indexes_mirror_labels (Some "key") two_in_match
           two_in_match_reachable).
Defined.

(** X7: in every reachable state the match table and the metadata table
    have the same keys, no key is empty, and no match is empty. *)
Theorem matches_and_metadata_agree apiKey σ :
  reachable apiKey σ →
  (∀ m, is_Some (matches σ !! m) ↔ is_Some (matchMetadata σ !! m)) ∧
  (∀ m mt, matches σ !! m = Some mt →
           m ≠ "" ∧ (1 ≤ JsSet.size mt)%nat).
Proof.
  intros Hwf%reachable_wf. split.
  - intros m. split; [|apply Hwf].
    intros [mt Hm].
    by destruct (wf_matches σ Hwf m mt Hm) as (_ & _ & _ & _ & ? & _).
  - intros m mt Hm.
    destruct (wf_matches σ Hwf m mt Hm) as (_ & _ & Hne & Hname & _).
    split; [done|]. unfold JsSet.size. destruct mt; [done|simpl; lia].
Qed.

Lemma matches_and_metadata_agree_witness :
  is_Some (matches two_in_match !! "m1") ↔
  is_Some (matchMetadata two_in_match !! "m1").
Proof.
  apply (matches_and_metadata_agree (Some "key") two_in_match
           two_in_match_reachable).
Defined.

(** The reaper run thirty-one minutes after A and B joined match m1. *)
Lemma reaper_idle_on_reachable_witness :
  matches (reaper 1860004 two_in_match) = matches two_in_match ∧
  matchMetadata (reaper 1860004 two_in_match) = matchMetadata two_in_match.
Proof.
  apply (reaper_idle_on_reachable (Some "key") 1860004 two_in_match
           two_in_match_reachable).
Defined.

(** X9: the registry and the transcription bridge do not interfere: the
    transcription handlers and provider events leave the sockets, the match
    table, its metadata and both indexes alone, and every other event
    except 'disconnect' leaves the session table and the provider sockets
    alone. *)
Theorem registry_and_bridge_are_independent apiKey now e σ :
  match e with
  | TranscriptionStart _ _ | AudioChunk _ _ | TranscriptionStop _
  | DgOpen _ | DgMessage _ _ _ | DgClose _ _ _ | DgError _ _ =>
      sockets (fst (step apiKey now e σ)) = sockets σ ∧
      matches (fst (step apiKey now e σ)) = matches σ ∧
      userSockets (fst (step apiKey now e σ)) = userSockets σ ∧
      socketToUser (fst (step apiKey now e σ)) = socketToUser σ ∧
      matchMetadata (fst (step apiKey now e σ)) = matchMetadata σ
  | Disconnect s =>
      deepgramConnections (fst (step apiKey now e σ)) =
        delete s (deepgramConnections σ)
  | _ =>
      deepgramConnections (fst (step apiKey now e σ)) =
        deepgramConnections σ ∧
      dgSockets (fst (step apiKey now e σ)) = dgSockets σ
  end.
Proof.
  destruct e; try (by apply bridge_core); cbn [step].
  - done.
  - apply register_frame.
  - unfold initiate_call. destruct (live_target σ to); [|done].
    destruct (truthy (socket_matchId σ s)) as [m|]; [|done].
    by destruct (matchMetadata σ !! m).
  - unfold accept_call. by destruct (live_target σ to).
  - unfold reject_call. by destruct (live_target σ to).
  - done.
  - unfold offer. by destruct (live_target σ to).
  - unfold answer. by destruct (live_target σ to).
  - unfold ice_candidate. by destruct (live_target σ to).
  - destruct (disconnect_frame s σ) as [-> _].
    by destruct (close_existing_sessions s σ) as [-> _].
  - by destruct (reap_fold_rest now (map_to_list (matchMetadata σ)) σ)
      as (_ & _ & _ & ? & ?).
Qed.

(** X10: in every reachable state a session recorded for a socket is a
    provider socket that was created for that socket and has not reported
    its closure, and the socket is still connected: no table entry outlives
    its connection. *)
Theorem sessions_belong_to_live_sockets apiKey σ :
  reachable apiKey σ →
  ∀ s w, deepgramConnections σ !! s = Some w →
    is_connected σ s = true ∧
    ∃ ws, dgSockets σ !! w = Some ws ∧ owner ws = s ∧
          readyState ws ≠ CLOSED.
Proof.
  intros Hok%reachable_sessions_ok s w Hs.
  destruct (Hok s w Hs) as (ws & Hw & Ho & Hr & Hc).
  split; [done|]. by exists ws.
Qed.

Lemma sessions_belong_to_live_sockets_witness :
  let σ := run (Some "key") restart_trace init in
  is_connected σ "A" = true ∧
  ∃ ws, dgSockets σ !! 2%nat = Some ws ∧ owner ws = "A" ∧
        readyState ws ≠ CLOSED.
Proof.
  apply (sessions_belong_to_live_sockets (Some "key")
           (run (Some "key") restart_trace init)).
  - by apply run_reachable; [apply reachable_init|].
  - reflexivity.
Defined.

(** ** Feeding and stopping a transcription session *)

(** X11: audio sent before the provider socket has opened is lost: right
    after a transcription:start that created a provider socket (there is a
    credential, and the constructor accepts the language and the
    credential) an audio chunk changes nothing and emits nothing; once the
    provider socket of the new session has opened, a chunk is handed to that
    socket unchanged, and still nothing is emitted. *)
Theorem audio_is_dropped_until_open apiKey key s lang data σ :
  truthy apiKey = Some key →
  websocket_throws key (default "en-US" (truthy lang)) = false →
  let σ1 := fst (transcription_start apiKey s lang σ) in
  let w := length (dgSockets σ) in
  audio_chunk s data σ1 = (σ1, []) ∧
  snd (audio_chunk s data (fst (dg_open w σ1))) = [] ∧
  sent <$> dgSockets (fst (audio_chunk s data (fst (dg_open w σ1)))) !! w
    = Some [data].
Proof.
  intros Hk Hth σ1 w.
  destruct (close_existing_sessions s σ) as (Htab & Hlen & _).
  assert (Htab1 : deepgramConnections σ1 !! s = Some w).
  { subst σ1 w. unfold transcription_start. rewrite Hk.
    cbv zeta. rewrite Hth. st. by rewrite Hlen, lookup_insert_eq. }
  assert (Hw1 : dgSockets σ1 !! w =
                Some (DgWs s (default "en-US" (truthy lang)) CONNECTING [])).
  { subst σ1 w. unfold transcription_start. rewrite Hk.
    cbv zeta. rewrite Hth. st.
    by rewrite lookup_app_r, Hlen, Nat.sub_diag by lia. }
  split.
  - unfold audio_chunk. by rewrite Htab1, Hw1.
  - unfold dg_open. rewrite Hw1. cbn [fst]. unfold audio_chunk. st.
    rewrite Htab1, list_lookup_alter_eq, Hw1. cbn. st.
    by rewrite !list_lookup_alter_eq, Hw1.
Qed.

Lemma audio_is_dropped_until_open_witness :
  let σ := fst (connection "A" init) in
  let σ1 := fst (transcription_start (Some "key") "A" None σ) in
  audio_chunk "A" [Byte.x41] σ1 = (σ1, []).
Proof.
  apply (audio_is_dropped_until_open (Some "key") "key" "A" None
           [Byte.x41] (fst (connection "A" init)) eq_refl eq_refl).
Defined.

Lemma close_existing_idempotent s σ :
  close_existing s (close_existing s σ) = close_existing s σ.
Proof.
  unfold close_existing at 1.
  destruct (close_existing_sessions s σ) as (-> & _).
  by rewrite lookup_delete_eq.
Qed.

(** X12: transcription:stop is idempotent and needs no session: without a
    table entry for the socket it changes nothing; in any case it emits
    nothing, leaves no table entry for the socket, a second stop changes
    nothing more, and audio sent afterwards is dropped. *)
Theorem transcription_stop_is_idempotent s data σ :
  snd (transcription_stop s σ) = [] ∧
  (deepgramConnections σ !! s = None → fst (transcription_stop s σ) = σ) ∧
  deepgramConnections (fst (transcription_stop s σ)) !! s = None ∧
  transcription_stop s (fst (transcription_stop s σ)) =
    transcription_stop s σ ∧
  audio_chunk s data (fst (transcription_stop s σ)) =
    (fst (transcription_stop s σ), []).
Proof.
  unfold transcription_stop. cbn [fst snd].
  assert (Hnone : deepgramConnections (close_existing s σ) !! s = None).
  { destruct (close_existing_sessions s σ) as (-> & _).
    apply lookup_delete_eq. }
  split; [done|]. split.
  { intros Hs. unfold close_existing. by rewrite Hs. }
  split; [done|]. split; [by rewrite close_existing_idempotent|].
  unfold audio_chunk. by rewrite Hnone.
Qed.

Lemma transcription_stop_is_idempotent_witness :
  fst (transcription_stop "A" two_in_match) = two_in_match.
Proof.
  destruct (transcription_stop_is_idempotent "A" [] two_in_match)
    as (_ & H & _).
  apply H. reflexivity.
Defined.

(** ** Registering and leaving *)

(** X13: a socket that has no entry in the socket index (it is not
    registered) registers under a userId that has no entry in the user
    index, into a match that has neither a member set nor metadata, and
    then disconnects: the match table, the metadata and both indexes are
    back to what they were before the register call. In between the match
    holds exactly that socket, and the disconnect performs its two
    broadcasts, user-left and call-ended, to the room of the match. *)
Theorem register_then_disconnect_restores now s u m σ sk :
  sockets σ !! s = Some sk → u ≠ "" → m ≠ "" →
  matches σ !! m = None → matchMetadata σ !! m = None →
  userSockets σ !! u = None → socketToUser σ !! s = None →
  let σ1 := fst (register now s (Some u) (Some m) σ) in
  let σ2 := fst (disconnect s σ1) in
  matches σ2 = matches σ ∧ matchMetadata σ2 = matchMetadata σ ∧
  userSockets σ2 = userSockets σ ∧ socketToUser σ2 = socketToUser σ ∧
  matches σ1 !! m = Some [s] ∧
  snd (disconnect s σ1) =
    [Broadcast s m (user_left u); Broadcast s m (call_ended (Some u))].
Proof.
  intros Hs Hu Hm Hnone Hmd Hus Hsu σ1 σ2.
  assert (Hnf : not_full s (default [] (matches σ !! m))).
  { rewrite Hnone. left. simpl. lia. }
  assert (H1 : σ1 = registered now s u m [] (Metadata now now) σ).
  { subst σ1.
    rewrite (register_ok now s (Some u) (Some m) σ u m (Metadata now now));
      try done; try (by apply truthy_of_Some); rewrite Hnone; done. }
  assert (Hadd : JsSet.add s [] = [s])
    by (by rewrite add_fresh by (by intros ?%elem_of_nil)).
  assert (Hlu : truthy (socket_userId σ1 s) = Some u).
  { rewrite H1, socket_userId_registered, decide_True, Hs by done.
    by apply truthy_of_Some. }
  assert (Hlm : truthy (socket_matchId σ1 s) = Some m).
  { rewrite H1. unfold socket_matchId, registered. st.
    rewrite !lookup_alter_eq, Hs. by apply truthy_of_Some. }
  assert (Hm1 : matches σ1 !! m = Some [s]).
  { rewrite H1. unfold registered. st. by rewrite lookup_insert_eq, Hadd. }
  destruct (disconnect_registered s σ1 u Hlu) as (Hus2 & Hsu2 & H).
  rewrite Hlm in H. cbn [mbind option_bind] in H. rewrite Hm1 in H.
  cbn [fmap option_fmap option_map] in H. destruct H as [Hout H].
  assert (Hdel : JsSet.delete s [s] = []).
  { unfold JsSet.delete. cbn. by rewrite decide_False by auto. }
  rewrite Hdel in H. rewrite decide_True in H by done.
  destruct H as [Hm2 Hmd2]. subst σ2.
  split; [|split; [|split; [|split; [|by split]]]].
  - rewrite Hm2, H1. unfold registered. st.
    by rewrite delete_insert_eq, delete_id.
  - rewrite Hmd2, H1. unfold registered. st.
    by rewrite delete_insert_eq, delete_id.
  - rewrite Hus2, H1. unfold registered. st.
    by rewrite delete_insert_eq, delete_id.
  - rewrite Hsu2, H1. unfold registered. st.
    by rewrite delete_insert_eq, delete_id.
Qed.

Lemma register_then_disconnect_restores_witness :
  let σ1 := fst (register 9 "C" (Some "u3") (Some "m2") three_sockets) in
  matches (fst (disconnect "C" σ1)) = matches three_sockets ∧
  userSockets (fst (disconnect "C" σ1)) = userSockets three_sockets.
Proof.
  destruct (register_then_disconnect_restores 9 "C" "u3" "m2" three_sockets
              (Socket None None true {["C"]}) eq_refl)
    as (Hm & _ & Hus & _);
    [discriminate|discriminate|reflexivity|reflexivity|reflexivity
    |reflexivity|].
  split; [exact Hm|exact Hus].
Defined.

(** X14: a socket that never registered leaves silently: its disconnect
    emits nothing, changes neither the match table and its metadata nor the
    indexes, and only drops its transcription session if it had one. *)
Theorem disconnect_unregistered_is_silent s σ :
  socket_userId σ s = None →
  snd (disconnect s σ) = [] ∧
  matches (fst (disconnect s σ)) = matches σ ∧
  matchMetadata (fst (disconnect s σ)) = matchMetadata σ ∧
  userSockets (fst (disconnect s σ)) = userSockets σ ∧
  socketToUser (fst (disconnect s σ)) = socketToUser σ ∧
  deepgramConnections (fst (disconnect s σ)) !! s = None ∧
  is_connected (fst (disconnect s σ)) s = false.
Proof.
  intros Hu.
  destruct (disconnect_unregistered s σ) as (Hout & Hm & Hmd & Hus & Hsu).
  { by rewrite Hu. }
  do 5 (split; [done|]). split.
  - destruct (disconnect_frame s σ) as [-> _].
    destruct (close_existing_sessions s σ) as [-> _].
    apply lookup_delete_eq.
  - unfold is_connected. rewrite disconnect_sockets, lookup_alter_eq.
    by destruct (sockets σ !! s).
Qed.

Lemma disconnect_unregistered_is_silent_witness :
  snd (disconnect "C" three_sockets) = [] ∧
  matches (fst (disconnect "C" three_sockets)) = matches three_sockets.
Proof.
  destruct (disconnect_unregistered_is_silent "C" three_sockets eq_refl)
    as (Hout & Hm & _).
  split; [exact Hout|exact Hm].
Defined.

(** ** Routing reaches registered, connected sockets only *)

(** X15: in every reachable state the target that routing resolves for a
    userId is a connected socket that has registered; offer, answer and
    ice-candidate hand it the payload unchanged together with the sender's
    userId, as the only emission and without touching the state. *)
Theorem signaling_forwards_verbatim apiKey σ s to t payload :
  reachable apiKey σ → live_target σ to = Some t →
  is_connected σ t = true ∧ is_Some (socket_userId σ t) ∧
  offer s payload to σ =
    (σ, [Emit t (offer_to payload (socket_userId σ s))]) ∧
  answer s payload to σ =
    (σ, [Emit t (answer_to payload (socket_userId σ s))]) ∧
  ice_candidate s payload to σ =
    (σ, [Emit t (ice_candidate_to payload (socket_userId σ s))]).
Proof.
  intros (_ & _ & _ & Hb)%reachable_registry_ok Hlive.
  unfold offer, answer, ice_candidate. rewrite Hlive.
  unfold live_target in Hlive.
  destruct (to ≫= _) as [t'|] eqn:Hto; [|done].
  destruct (is_connected σ t') eqn:Hc; [|done].
  injection Hlive as ->. destruct to as [u|]; [|done].
  cbn [mbind option_bind] in Hto.
  destruct (Hb u t Hto) as (_ & sk & Hsk & Hlab).
  repeat split; try done. unfold socket_userId. by rewrite Hsk.
Qed.

Lemma signaling_forwards_verbatim_witness :
  offer "A" "sdp" (Some "u2") two_in_match =
    (two_in_match, [Emit "B" (offer_to "sdp" (Some "u1"))]).
Proof.
  destruct (signaling_forwards_verbatim (Some "key") two_in_match "A"
              (Some "u2") "B" "sdp" two_in_match_reachable eq_refl)
    as (_ & _ & Ho & _).
  rewrite Ho. reflexivity.
Defined.

(** ** The ICE server list and the startup banner *)

(** X16: the ICE server list always starts with the three STUN servers,
    which carry no credentials; it has 3, 4 or 7 entries; every entry after
    the third carries a username and a credential; and whenever it lists a
    TURN server the startup banner reports TURN as configured. *)
Theorem ice_servers_shape e :
  take 3 (ice_servers e) = stun_servers ∧
  (length (ice_servers e) = 3 ∨ length (ice_servers e) = 4 ∨
   length (ice_servers e) = 7)%nat ∧
  Forall (λ srv, is_Some (username srv) ∧ is_Some (credential srv))
    (drop 3 (ice_servers e)) ∧
  ((3 < length (ice_servers e))%nat → turn_banner e = true).
Proof.
  unfold ice_servers, turn_banner.
  destruct (truthy (METERED_USERNAME e)) as [u|];
    destruct (truthy (METERED_CREDENTIAL e)) as [c|];
    destruct (truthy (TURN_SERVER_URL e)) as [url|];
    cbn [app take drop length stun_servers metered_servers];
    (split; [done|]); (split; [auto|]);
    (split; [repeat constructor; by eexists|]);
    first [done | intros; lia].
Qed.

Lemma ice_servers_shape_witness :
  turn_banner (Env None None None (Some "turn:example.org:3478") None None)
    = true.
Proof.
  destruct (ice_servers_shape
              (Env None None None (Some "turn:example.org:3478") None None))
    as (_ & _ & _ & H).
  apply H. change (3 < 4)%nat. lia.
Defined.

(** The banner can claim TURN while the list has none: a Metered username
    without its credential. *)
Example turn_banner_without_turn_server :
  let e := Env None (Some "user") None None None None in
  turn_banner e = true ∧ ice_servers e = stun_servers.
Proof. split; reflexivity. Qed.

(** ** The statistics endpoint *)

(** X17: in every reachable state the statistics endpoint lists as many
    matches as it counts, and each listed match has one or two
    participants, as many participant records as its count, a userId on
    every participant record, and both timestamps. *)
Theorem api_stats_well_formed apiKey σ :
  reachable apiKey σ →
  length (stats_matches (api_stats σ)) = activeMatches (api_stats σ) ∧
  Forall (λ d,
      (1 ≤ participantCount d ≤ 2)%nat ∧
      length (detail_participants d) = participantCount d ∧
      Forall (λ p, is_Some (detail_userId p)) (detail_participants d) ∧
      is_Some (detail_createdAt d) ∧ is_Some (detail_lastActivity d))
    (stats_matches (api_stats σ)).
Proof.
  intros Hr. pose proof (reachable_wf apiKey σ Hr) as Hwf.
  destruct (reachable_registry_ok apiKey σ Hr) as (_ & Hlab & _).
  unfold api_stats. cbn [stats_matches activeMatches]. split.
  - by rewrite length_fmap, length_map_to_list.
  - apply Forall_fmap, Forall_forall. intros [m mt] Hin%elem_of_map_to_list.
    destruct (wf_matches σ Hwf m mt Hin)
      as (_ & Hlen & Hne & _ & [md Hmd] & _).
    cbn. unfold JsSet.size. rewrite length_fmap, Hmd. cbn.
    split; [destruct mt; [done|simpl in *; lia]|].
    split; [done|]. split; [|by split].
    apply Forall_fmap, Forall_forall. intros t Ht. cbn.
    destruct (Hlab m mt t Hin Ht) as (sk & u & Hsk & Hu).
    unfold socket_userId. by rewrite Hsk.
Qed.

Lemma api_stats_well_formed_witness :
  length (stats_matches (api_stats two_in_match)) =
  activeMatches (api_stats two_in_match).
Proof.
  apply (api_stats_well_formed (Some "key") two_in_match
           two_in_match_reachable).
Defined.

(** ** The client's participant list *)

Lemma on_user_joined_fresh id prev :
  id ∉ prev → Client.on_user_joined id prev = prev ++ [id].
Proof.
  intros H. unfold Client.on_user_joined.
  by rewrite bool_decide_eq_false_2.
Qed.

Lemma on_user_joined_known id prev :
  id ∈ prev → Client.on_user_joined id prev = prev.
Proof.
  intros H. unfold Client.on_user_joined.
  by rewrite bool_decide_eq_true_2.
Qed.

(** X18: the client's participant list: a user-joined event for a listed id
    changes nothing, so the event is idempotent and keeps the list free of
    duplicates; after user-left the id is not listed; and user-left undoes
    the user-joined of an id that was not listed. *)
Theorem client_participants_algebra id prev :
  id ∈ Client.on_user_joined id prev ∧
  Client.on_user_joined id (Client.on_user_joined id prev) =
    Client.on_user_joined id prev ∧
  (NoDup prev → NoDup (Client.on_user_joined id prev)) ∧
  (id ∉ Client.on_user_left id prev) ∧
  (id ∉ prev → Client.on_user_left id prev = prev) ∧
  (id ∉ prev → Client.on_user_left id (Client.on_user_joined id prev) = prev).
Proof.
  assert (Hleft : id ∉ prev → Client.on_user_left id prev = prev).
  { intros Hid. unfold Client.on_user_left.
    induction prev as [|x l IH]; [done|].
    apply not_elem_of_cons in Hid as [Hx Hl].
    rewrite filter_cons_True by congruence. by rewrite IH. }
  destruct (decide (id ∈ prev)) as [Hin|Hout].
  - rewrite !on_user_joined_known by done.
    repeat split; try done.
    unfold Client.on_user_left. rewrite list_elem_of_filter. tauto.
  - rewrite !on_user_joined_fresh by done.
    assert (Hnew : id ∈ prev ++ [id])
      by (apply elem_of_app; right; by apply list_elem_of_singleton).
    split; [done|]. split; [by rewrite on_user_joined_known|].
    split.
    { intros Hnd. apply NoDup_app. repeat split; [done| |].
      - intros x Hx ->%list_elem_of_singleton. done.
      - apply NoDup_singleton. }
    split; [unfold Client.on_user_left; rewrite list_elem_of_filter; tauto|].
    split; [done|]. intros _. unfold Client.on_user_left.
    rewrite filter_app. fold (Client.on_user_left id prev).
    rewrite Hleft by done. cbn. rewrite decide_False by tauto.
    apply app_nil_r.
Qed.

Lemma client_participants_algebra_witness :
  Client.on_user_left (Some "u2")
    (Client.on_user_joined (Some "u2") [Some "u1"]) = [Some "u1"].
Proof.
  destruct (client_participants_algebra (Some "u2") [Some "u1"])
    as (_ & _ & _ & _ & _ & H).
  apply H. intros [[=]|[]%elem_of_nil]%elem_of_cons.
Defined.

(** X19: server and clients agree on the participants: when a connected
    socket joins a match it was not a member of, under a userId that no
    member carries, a client that held the server's participant list of
    the match and handles the user-joined event ends with the very list the
    server sent to the newcomer in "joined", and the count both events
    carry is the length of that list. *)
Theorem clients_agree_on_participants now s uid mid σ m u ps n rest mt :
  is_connected σ s = true →
  snd (register now s uid mid σ) = Emit s (joined m u ps n) :: rest →
  matches σ !! m = Some mt → s ∉ mt → Some u ∉ participants σ mt →
  Client.handle (user_joined u n) (participants σ mt) = ps ∧
  Client.handle (joined m u ps n) [] = ps ∧
  length ps = n.
Proof.
  intros (sk & Hs & _)%is_connected_Some Hout Hmt Hnew Hfresh.
  destruct (register_joined_inv _ _ _ _ _ _ _ _ _ _ Hout)
    as (Hu & Hm & Hnf & md & Hmd).
  pose proof (register_ok now s uid mid σ u m md Hu Hm Hnf Hmd) as H1.
  cbv zeta in H1. rewrite H1 in Hout. cbn [snd] in Hout.
  rewrite Hmt in Hout. cbn [default from_option id] in Hout.
  injection Hout as <- <- _.
  rewrite add_fresh by done. unfold participants in *.
  split; [|split; [done|by rewrite length_fmap]].
  rewrite fmap_app. cbn [fmap list_fmap].
  rewrite socket_userId_registered, decide_True, Hs by done.
  cbn [mbind option_bind].
  assert (Hsame : (λ t, socket_userId (registered now s u m mt md σ) t)
                    <$> mt = (λ t, socket_userId σ t) <$> mt).
  { apply list_fmap_ext. intros _ t Ht%list_elem_of_lookup_2.
    rewrite socket_userId_registered. rewrite decide_False; [done|].
    intros ->. done. }
  rewrite Hsame. cbn [Client.handle].
  by rewrite on_user_joined_fresh.
Qed.

Lemma clients_agree_on_participants_witness :
  let σ := run (Some "key")
             [(1, Connection "A"); (2, Connection "B");
              (3, Register "A" (Some "u1") (Some "m1"))] init in
  Client.handle (user_joined "u2" 2) (participants σ ["A"]) =
    [Some "u1"; Some "u2"].
Proof.
  destruct (clients_agree_on_participants 4 "B" (Some "u2") (Some "m1")
              (run (Some "key")
                 [(1, Connection "A"); (2, Connection "B");
                  (3, Register "A" (Some "u1") (Some "m1"))] init)
              "m1" "u2" [Some "u1"; Some "u2"] 2
              [Broadcast "B" "m1" (user_joined "u2" 2)] ["A"]
              eq_refl eq_refl eq_refl) as (H & _).
  - intros [[=]|[]%elem_of_nil]%elem_of_cons.
  - intros [[=]|[]%elem_of_nil]%elem_of_cons.
  - exact H.
Defined.

(** ** Ending a call inside a match *)

(** X20: end-call reaches a peer of the same match twice: when the userId
    named in end-call resolves to a connected member of the sender's match
    other than the sender, that member receives call-ended once directly
    and once more through the broadcast to the match room. *)
Theorem end_call_reaches_match_peer_twice apiKey σ s to t m mt :
  reachable apiKey σ →
  live_target σ to = Some t → socket_matchId σ s = Some m →
  matches σ !! m = Some mt → t ∈ mt → t ≠ s →
  inbox σ t (snd (end_call s to σ)) =
    [call_ended (socket_userId σ s); call_ended (socket_userId σ s)].
Proof.
  intros Hr Hlive Hmid Hmt Ht Hts.
  pose proof (reachable_wf apiKey σ Hr) as Hwf.
  destruct (reachable_registry_ok apiKey σ Hr) as (_ & _ & _ & Hb).
  destruct (wf_matches σ Hwf m mt Hmt) as (_ & _ & _ & Hm & _ & Hmem).
  assert (Hto : truthy to = to ∧ is_connected σ t = true).
  { unfold live_target in Hlive.
    destruct to as [u|]; [|done]. cbn [mbind option_bind] in Hlive.
    destruct (userSockets σ !! u) as [t'|] eqn:Hu; [|done].
    destruct (is_connected σ t') eqn:Hc; [|done].
    injection Hlive as ->. destruct (Hb u t Hu) as [Hne _].
    split; [by apply truthy_of_Some|done]. }
  destruct Hto as [Hto Hc]. unfold end_call.
  destruct to as [u|]; [|done]. rewrite Hto, Hlive, Hmid.
  rewrite truthy_of_Some by done. cbn [app snd]. unfold inbox.
  cbn [omap list_omap receives].
  rewrite decide_True, decide_False by congruence.
  destruct (Hmem t Ht) as (sk & Hsk & Hroom).
  unfold is_connected in Hc. rewrite Hsk in Hc.
  unfold in_room. rewrite Hsk. by rewrite bool_decide_eq_true_2 by auto.
Qed.

Lemma end_call_reaches_match_peer_twice_witness :
  inbox two_in_match "B" (snd (end_call "A" (Some "u2") two_in_match)) =
    [call_ended (Some "u1"); call_ended (Some "u1")].
Proof.
  apply (end_call_reaches_match_peer_twice (Some "key") two_in_match "A"
           (Some "u2") "B" "m1" ["A"; "B"] two_in_match_reachable);
    try reflexivity.
  - apply elem_of_cons. right. apply elem_of_cons. by left.
  - discriminate.
Defined.

(** ** Restarting transcription *)

(** A restarts transcription in French while its first session is open. *)
Lemma transcription_start_restart_witness :
  let σ := run (Some "key") provider_error_trace init in
  let σ' := fst (transcription_start (Some "key") "A" (Some "fr") σ) in
  readyState <$> dgSockets σ' !! 0%nat = Some CLOSING ∧
  deepgramConnections σ' !! "A" = Some 1%nat ∧
  dgSockets σ' !! 1%nat = Some (DgWs "A" "fr" CONNECTING []).
Proof.
  destruct (transcription_start_restart (Some "key") "key" "A" (Some "fr")
              (run (Some "key") provider_error_trace init) 0
              (DgWs "A" "en-US" OPEN []) eq_refl eq_refl eq_refl eq_refl)
    as (_ & H0 & _ & Ht & H1 & _).
  cbv zeta. rewrite H0. split; [reflexivity|]. split; [exact Ht|exact H1].
Defined.

(** ** A start that cannot construct the provider socket *)

(** X22: with a credential, a start whose language contains '#' cannot
    construct the provider socket: the caller is answered with
    transcription:error 'Failed to start transcription' and nothing else;
    the session the socket had, if any, was closed and taken out of the
    table before, no provider socket is created and the table has no entry
    for the socket afterwards. *)
Theorem transcription_start_failure apiKey key s lang l σ :
  truthy apiKey = Some key → truthy lang = Some l → has_fragment l = true →
  transcription_start apiKey s lang σ =
    (close_existing s σ,
     [Emit s (transcription_error "Failed to start transcription")]) ∧
  deepgramConnections (close_existing s σ) !! s = None ∧
  length (dgSockets (close_existing s σ)) = length (dgSockets σ) ∧
  ∀ w ws, deepgramConnections σ !! s = Some w → dgSockets σ !! w = Some ws →
    dgSockets (close_existing s σ) !! w = Some (ws_close ws).
Proof.
  intros Hk Hl Hf.
  destruct (close_existing_sessions s σ) as (Htab & Hlen & _).
  split.
  { unfold transcription_start, websocket_throws.
    by rewrite Hk, Hl; cbn [default from_option id]; rewrite Hf. }
  split; [by rewrite Htab, lookup_delete_eq|]. split; [done|].
  intros w ws Hw Hws. unfold close_existing. rewrite Hw. st.
  by rewrite list_lookup_alter_eq, Hws.
Qed.

Lemma transcription_start_failure_witness :
  let σ := run (Some "key") provider_error_trace init in
  let r := transcription_start (Some "key") "A" (Some "en#x") σ in
  deepgramConnections σ !! "A" = Some 0%nat ∧
  snd r = [Emit "A" (transcription_error "Failed to start transcription")] ∧
  deepgramConnections (fst r) !! "A" = None ∧
  length (dgSockets (fst r)) = 1%nat ∧
  readyState <$> dgSockets (fst r) !! 0%nat = Some CLOSING.
Proof.
  destruct (transcription_start_failure (Some "key") "key" "A"
              (Some "en#x") "en#x"
              (run (Some "key") provider_error_trace init)
              eq_refl eq_refl eq_refl) as (Hr & Ht & Hlen & Hw).
  cbv zeta. rewrite Hr. cbn [fst snd].
  split; [reflexivity|]. split; [reflexivity|]. split; [exact Ht|].
  split; [by rewrite Hlen|].
  by rewrite (Hw 0%nat (DgWs "A" "en-US" OPEN []) eq_refl eq_refl).
Defined.

(** ** What a disconnect cleans up *)



